(** * multitool: a shallow embedding of [cmd/multitool/multitool.go]

    The command-line tool dispatches a named subcommand, resolves each
    input from a positional argument or from standard input, and prints
    one line.  The development below embeds the Go source as functions
    in a small world-passing monad (standard input, standard output,
    process exit, runtime panic) and proves properties of the varint
    codec, the input resolver, the key-consuming commands and the
    subcommand registry.

    Conventions:
    - a Go [string] is a [string] (a sequence of 8-bit characters);
    - a Go [byte], [int64] or [uint64] is a [Z], every wrap-around is
      written out ([mod 256], [mod 2^64]);
    - a [[]byte] is a [list Z];
    - [map[string]command] is a [gmap string command]. *)

From Stdlib Require Import ZArith Lia Ascii String List Bool.
From stdpp Require Import base option list strings gmap fin_maps.

Local Open Scope string_scope.
Local Open Scope list_scope.
Local Open Scope Z_scope.

(** ** Bytes and strings *)

Module GoString.

(** The byte value of a character of a string: [s[i]]. *)
Definition byte_of_ascii (c : ascii) : Z := Z.of_N (N_of_ascii c).

(** [byte(v)]: truncation to eight bits, as a character. *)
Definition ascii_of_byte (b : Z) : ascii := ascii_of_N (Z.to_N (b mod 256)).

(** [[]byte(s)] *)
Fixpoint bytes_of_string (s : string) : list Z :=
  match s with
  | EmptyString => []
  | String c r => byte_of_ascii c :: bytes_of_string r
  end.

(** [string(b)] *)
Fixpoint string_of_bytes (b : list Z) : string :=
  match b with
  | [] => EmptyString
  | v :: r => String (ascii_of_byte v) (string_of_bytes r)
  end.

(** The line feed written by [fmt.Println]. *)
Definition nl : string := String (ascii_of_nat 10) EmptyString.

(** The double quote that the formats put around a [%s] verb. *)
Definition dquote : string := String (ascii_of_nat 34) EmptyString.

(** [strings.HasPrefix(s, prefix)] *)
Fixpoint HasPrefix (s prefix : string) : bool :=
  match prefix, s with
  | EmptyString, _ => true
  | String p pr, String c r => if Ascii.eqb p c then HasPrefix r pr else false
  | String _ _, EmptyString => false
  end.

(** [s[len(prefix):]] *)
Fixpoint drop_prefix (s prefix : string) : string :=
  match prefix, s with
  | EmptyString, _ => s
  | String _ pr, String _ r => drop_prefix r pr
  | String _ _, EmptyString => EmptyString
  end.

(** [strings.TrimPrefix(s, prefix)] *)
Definition TrimPrefix (s prefix : string) : string :=
  if HasPrefix s prefix then drop_prefix s prefix else s.

End GoString.
Import GoString.

(** ** encoding/hex *)

Module Hex.

Definition hextable : string := "0123456789abcdef".

(** [hextable[v]] *)
Definition hexchar (v : Z) : ascii :=
  match String.get (Z.to_nat v) hextable with
  | Some c => c
  | None => ascii_of_nat 0
  end.

(** [hex.EncodeToString]: two characters per byte, high nibble first. *)
Fixpoint EncodeToString (src : list Z) : string :=
  match src with
  | [] => EmptyString
  | v :: r =>
      String (hexchar (Z.shiftr v 4))
        (String (hexchar (Z.land v 15)) (EncodeToString r))
  end.

(** [fromHexChar]: [None] is the [false] of the Go pair. *)
Definition fromHexChar (c : ascii) : option Z :=
  let b := byte_of_ascii c in
  if (48 <=? b) && (b <=? 57) then Some (b - 48)
  else if (97 <=? b) && (b <=? 102) then Some (b - 97 + 10)
  else if (65 <=? b) && (b <=? 70) then Some (b - 65 + 10)
  else None.

Inductive error : Type :=
| ErrLength
| InvalidByteError (c : Z).

(** The loop of [hex.Decode] over the pairs of characters. *)
Fixpoint decode_pairs (s : string) : error + list Z :=
  match s with
  | EmptyString => inr []
  | String _ EmptyString => inl ErrLength
  | String c1 (String c2 r) =>
      match fromHexChar c1 with
      | None => inl (InvalidByteError (byte_of_ascii c1))
      | Some a =>
          match fromHexChar c2 with
          | None => inl (InvalidByteError (byte_of_ascii c2))
          | Some b =>
              match decode_pairs r with
              | inl e => inl e
              | inr l => inr (Z.lor (Z.shiftl a 4 mod 256) b :: l)
              end
          end
      end
  end.

(** [hex.DecodeString]: an odd length is refused before any byte is
    looked at. *)
Definition DecodeString (s : string) : error + list Z :=
  if Nat.odd (String.length s) then inl ErrLength else decode_pairs s.

(** [strconv.IsPrint] on the runes a byte can hold. *)
Definition IsPrint (r : Z) : bool :=
  if (32 <=? r) && (r <? 127) then true
  else if (161 <=? r) && (r <=? 255) then negb (r =? 173)
  else false.

Definition upperhex : string := "0123456789ABCDEF".

Definition upperhexchar (v : Z) : ascii :=
  match String.get (Z.to_nat v) upperhex with
  | Some c => c
  | None => ascii_of_nat 0
  end.

(** The UTF-8 encoding of a rune below 256. *)
Definition utf8 (r : Z) : string :=
  if r <? 128 then String (ascii_of_byte r) EmptyString
  else String (ascii_of_byte (Z.lor 192 (Z.shiftr r 6)))
         (String (ascii_of_byte (Z.lor 128 (Z.land r 63))) EmptyString).

(** The verb [%#U] on a rune below 256. *)
Definition fmt_sharpU (r : Z) : string :=
  "U+00" +:+ String (upperhexchar (Z.shiftr r 4))
               (String (upperhexchar (Z.land r 15)) EmptyString)
    +:+ (if IsPrint r then " '" +:+ utf8 r +:+ "'" else "").

(** [err.Error()] *)
Definition Error (e : error) : string :=
  match e with
  | ErrLength => "encoding/hex: odd length hex string"
  | InvalidByteError c => "encoding/hex: invalid byte: " +:+ fmt_sharpU c
  end.

End Hex.

(** ** strconv *)

Module Strconv.

Inductive NumError : Type := ErrSyntax | ErrRange.

Definition maxUint64 : Z := 2 ^ 64 - 1.

(** The digit loop of [strconv.ParseUint] in base 10: [n] is the
    [uint64] accumulator, [cutoff] the least number whose tenfold
    overflows and [maxVal] the largest value of the bit size. *)
Fixpoint ParseUint_loop (s : string) (n cutoff maxVal : Z) : Z * option NumError :=
  match s with
  | EmptyString => (n, None)
  | String c r =>
      let d := byte_of_ascii c in
      if (48 <=? d) && (d <=? 57) then
        let v := d - 48 in
        if cutoff <=? n then (maxUint64, Some ErrRange)
        else
          let n := (n * 10) mod 2 ^ 64 in
          let n1 := (n + v) mod 2 ^ 64 in
          if (n1 <? n) || (maxVal <? n1) then (maxUint64, Some ErrRange)
          else ParseUint_loop r n1 cutoff maxVal
      else (0, Some ErrSyntax)
  end.

(** [strconv.ParseUint(s, 10, bitSize)] *)
Definition ParseUint (s : string) (bitSize : Z) : Z * option NumError :=
  match s with
  | EmptyString => (0, Some ErrSyntax)
  | _ => ParseUint_loop s 0 (maxUint64 / 10 + 1) (2 ^ bitSize - 1)
  end.

(** [strconv.ParseInt(s, 10, bitSize)] *)
Definition ParseInt (s : string) (bitSize : Z) : Z * option NumError :=
  match s with
  | EmptyString => (0, Some ErrSyntax)
  | String c r =>
      let '(neg, s') :=
        if Ascii.eqb c "+" then (false, r)
        else if Ascii.eqb c "-" then (true, r)
        else (false, s) in
      match ParseUint s' bitSize with
      | (_, Some ErrSyntax) => (0, Some ErrSyntax)
      | (un, _) =>
          let cutoff := 2 ^ (bitSize - 1) in
          if negb neg && (cutoff <=? un) then (cutoff - 1, Some ErrRange)
          else if neg && (cutoff <? un) then (- cutoff, Some ErrRange)
          else (if neg then - un else un, None)
      end
  end.

(** The loop of [formatBits] in base 10: digits are produced from the
    least significant one and stored from the end of a buffer of
    [room] free bytes. *)
Fixpoint formatBits_loop (room : nat) (u : Z) (acc : string) : option string :=
  match room with
  | O => None
  | S room' =>
      if 10 <=? u then
        let q := u / 10 in
        formatBits_loop room' q (String (ascii_of_byte (48 + u - q * 10)) acc)
      else Some (String (ascii_of_byte (48 + u)) acc)
  end.

(** [strconv.FormatUint(u, 10)]; the buffer of [formatBits] has
    64 + 1 bytes. *)
Definition FormatUint (u : Z) : option string := formatBits_loop 65 u EmptyString.

(** [strconv.FormatInt(i, 10)]: the magnitude of a negative number is
    taken in [uint64] and a minus sign put in front. *)
Definition FormatInt (i : Z) : option string :=
  if i <? 0 then
    match formatBits_loop 64 ((- i) mod 2 ^ 64) EmptyString with
    | Some s => Some (String "-" s)
    | None => None
    end
  else formatBits_loop 65 i EmptyString.

End Strconv.

(** ** encoding/binary: variable-length integers *)

Module Binary.

(** The loop of [binary.PutUvarint]: [fuel] bounds the iterations by
    the bytes left in [buf]; a store past the end of [buf] is the
    run-time panic [None]. *)
Fixpoint PutUvarint_loop (fuel : nat) (buf : list Z) (i : nat) (x : Z)
  : option (list Z * nat) :=
  if 128 <=? x then
    match fuel with
    | O => None
    | S fuel' =>
        if (i <? length buf)%nat then
          PutUvarint_loop fuel' (<[i := Z.lor (x mod 256) 128]> buf) (S i) (Z.shiftr x 7)
        else None
    end
  else
    if (i <? length buf)%nat then Some (<[i := x mod 256]> buf, S i) else None.

(** [binary.PutUvarint(buf, x)]: the buffer after the call and the
    number of bytes written. *)
Definition PutUvarint (buf : list Z) (x : Z) : option (list Z * nat) :=
  PutUvarint_loop (length buf) buf 0 x.

(** [binary.PutVarint(buf, x)]: zig-zag, then [PutUvarint]. *)
Definition PutVarint (buf : list Z) (x : Z) : option (list Z * nat) :=
  let ux := (x mod 2 ^ 64 * 2) mod 2 ^ 64 in
  let ux := if x <? 0 then Z.lxor ux (2 ^ 64 - 1) else ux in
  PutUvarint buf ux.

(** The loop of [binary.Uvarint] over [buf[i:]], with accumulator [x]
    and shift [s]. *)
Fixpoint Uvarint_loop (buf : list Z) (i : Z) (x : Z) (s : Z) : Z * Z :=
  match buf with
  | [] => (0, 0)
  | b :: r =>
      if b <? 128 then
        if (9 <? i) || ((i =? 9) && (1 <? b)) then (0, - (i + 1))
        else (Z.lor x (Z.shiftl b s mod 2 ^ 64), i + 1)
      else
        Uvarint_loop r (i + 1) (Z.lor x (Z.shiftl (Z.land b 127) s mod 2 ^ 64)) (s + 7)
  end.

(** [binary.Uvarint(buf)]: the value and the number of bytes read
    (0: buffer too small, negative: overflow). *)
Definition Uvarint (buf : list Z) : Z * Z := Uvarint_loop buf 0 0 0.

(** [binary.Varint(buf)] *)
Definition Varint (buf : list Z) : Z * Z :=
  let '(ux, n) := Uvarint buf in
  let x := Z.shiftr ux 1 in
  let x := if negb (Z.land ux 1 =? 0) then Z.lnot x else x in
  (x, n).

End Binary.

(** ** The process: standard streams, exit and panic *)

Module Proc.

(** What one [Read] of the timed reader around [os.Stdin] delivers:
    some bytes, the end of the input, or an error (the text of
    [err.Error()], for instance that of the expired deadline). *)
Inductive read_event : Type :=
| ReadData (s : string)
| ReadEOF
| ReadError (e : string).

Record world : Type := mkWorld {
  stdin : list read_event;   (* the reads still to come *)
  stdout : string;           (* everything printed so far *)
  rand : list Z              (* the bytes of [crypto/rand] *)
}.

Inductive outcome (A : Type) : Type :=
| Done (a : A) (w : world)         (* the call returned *)
| Exited (code : Z) (w : world)    (* [os.Exit(code)] *)
| Panicked (w : world).            (* a run-time panic *)
Arguments Done {A} a w.
Arguments Exited {A} code w.
Arguments Panicked {A} w.

Definition M (A : Type) : Type := world -> outcome A.

Definition ret {A} (a : A) : M A := fun w => Done a w.

Definition bind {A B} (m : M A) (k : A -> M B) : M B :=
  fun w =>
    match m w with
    | Done a w' => k a w'
    | Exited c w' => Exited c w'
    | Panicked w' => Panicked w'
    end.

Definition panic {A} : M A := fun w => Panicked w.

(** [os.Exit(code)] *)
Definition Exit (code : Z) : M unit := fun w => Exited code w.

(** A write of [s] on standard output. *)
Definition put (s : string) (w : world) : world :=
  mkWorld (stdin w) (stdout w +:+ s) (rand w).

Definition Print (s : string) : M unit := fun w => Done tt (put s w).

(** [fmt.Println(s)] *)
Definition Println (s : string) : M unit := Print (s +:+ nl).

(** A Go value that exists unless the operation computing it
    panicked. *)
Definition orPanic {A} (o : option A) : M A :=
  match o with
  | Some a => ret a
  | None => panic
  end.

(** [if c { body }] *)
Definition when (c : bool) (body : M unit) : M unit :=
  if c then body else ret tt.

(** The loop of [ioutil.ReadAll]: reads are accumulated until the end
    of the input ([nil] error) or an error. *)
Fixpoint ReadAll_loop (evs : list read_event) (acc : string)
  : string * option string * list read_event :=
  match evs with
  | [] => (acc, None, [])
  | ReadData s :: r => ReadAll_loop r (acc +:+ s)
  | ReadEOF :: r => (acc, None, r)
  | ReadError e :: r => (acc, Some e, r)
  end.

(** [ioutil.ReadAll(stdin)] *)
Definition ReadAll_stdin : M (string * option string) :=
  fun w =>
    let '(b, err, rest) := ReadAll_loop (stdin w) EmptyString in
    Done (b, err) (mkWorld rest (stdout w) (rand w)).

End Proc.
Import Proc.

Declare Scope proc_scope.
Delimit Scope proc_scope with proc.
Notation "x <- c1 ;; c2" := (bind c1 (fun x => c2))
  (at level 20, c1 at level 99, c2 at level 200) : proc_scope.
Notation "' pat <- c1 ;; c2" := (bind c1 (fun x => let 'pat := x in c2))
  (at level 20, pat pattern, c1 at level 99, c2 at level 200) : proc_scope.
Notation "c1 ;; c2" := (bind c1 (fun _ => c2))
  (at level 100, right associativity) : proc_scope.
Local Open Scope proc_scope.

(** ** multitool.go *)

Import Hex Strconv Binary.

(** The functions a [command] can hold (a Go function value is
    represented by its name and applied by [call] below). *)
Inductive handler : Type :=
| fn_assetid | fn_block | fn_blockheader | fn_derive | fn_genprv
| fn_genxprv | fn_hexCmd | fn_hmac512 | fn_pub | fn_script | fn_sha3Cmd
| fn_sign | fn_tx | fn_uvarint | fn_varint | fn_verify | fn_zerohash
| fn_help.

Record command : Type := mkCommand {
  fn : handler;
  help_text : string;
  usage : string
}.

(** The map literal of [subcommands]. *)
Definition subcommands_literal : gmap string command :=
  list_to_map [
    ("assetid", mkCommand fn_assetid "compute asset id" "ISSUANCEPROG GENESISHASH");
    ("block", mkCommand fn_block "decode and pretty-print a block" "BLOCK");
    ("blockheader", mkCommand fn_blockheader "decode and pretty-print a block header" "BLOCKHEADER");
    ("derive", mkCommand fn_derive "derive child from given xpub or xprv and given path" "XPUB/XPRV PATH PATH...");
    ("genprv", mkCommand fn_genprv "generate prv" "");
    ("genxprv", mkCommand fn_genxprv "generate xprv" "");
    ("hex", mkCommand fn_hexCmd "string <-> hex" "INPUT");
    ("hmac512", mkCommand fn_hmac512 "compute the hmac512 digest" "KEY VALUE");
    ("pub", mkCommand fn_pub "get pub key from prv, or xpub from xprv" "PRV/XPRV");
    ("script", mkCommand fn_script "hex <-> opcodes" "INPUT");
    ("sha3", mkCommand fn_sha3Cmd "produce sha3 hash" "INPUT");
    ("sign", mkCommand fn_sign "sign, using hex PRV or XPRV, the given hex MSG" "PRV/XPRV MSG");
    ("tx", mkCommand fn_tx "decode and pretty-print a transaction" "TX");
    ("uvarint", mkCommand fn_uvarint "decimal <-> hex" "[-from|-to] VAL");
    ("varint", mkCommand fn_varint "decimal <-> hex" "[-from|-to] VAL");
    ("verify", mkCommand fn_verify "verify, using hex PUB or XPUB and the given hex MSG and SIG" "PUB/XPUB MSG SIG");
    ("zerohash", mkCommand fn_zerohash "produce an all-zeroes hash" "")
  ].

(** [subcommands] once [init] has added the [help] entry. *)
Definition subcommands : gmap string command :=
  <["help" := mkCommand fn_help "show help" "[SUBCOMMAND]"]> subcommands_literal.

(** [errorf(msg, args...)]: [msg] is the text after [fmt.Sprintf]. *)
Definition errorf (msg : string) : M unit :=
  Println msg ;; Exit 1.

Definition mustSubcommand (name : string) : M command :=
  match subcommands !! name with
  | Some cmd => ret cmd
  | None =>
      errorf ("unknown subcommand " +:+ dquote +:+ name +:+ dquote) ;;
      ret (mkCommand fn_help "" "") (* not reached *)
  end.

(** The verb [%-16.16s] on an ASCII name: cut to 16 characters, padded
    with spaces on the right to 16. *)
Definition fmt_16 (s : string) : string :=
  let t := String.substring 0 16 s in
  t +:+ string_of_list_ascii (repeat " "%char (16 - String.length t)%nat).

(** [help]; the order in which Go ranges over a map is not specified,
    the order of [map_to_list] stands for it. *)
Definition help (args : list string) : M unit :=
  match args with
  | a :: _ =>
      subcommand <- mustSubcommand a ;;
      Println (help_text subcommand) ;;
      Print (a +:+ " " +:+ usage subcommand +:+ nl)
  | [] =>
      foldr (fun '(name, cmd) k =>
               Print (fmt_16 name +:+ " " +:+ help_text cmd +:+ nl) ;; k)
            (ret tt) (map_to_list subcommands)
  end.

Definition input (args : list string) (n : nat) (usedStdin : bool) : M (string * bool) :=
  if (n <? length args)%nat && negb (String.eqb (default "" (args !! n)) "-") then
    ret (default "" (args !! n), usedStdin)
  else
    when usedStdin (errorf "can use stdin for only one arg") ;;
    '(b, err) <- ReadAll_stdin ;;
    match err with
    | Some e => errorf ("unexpected error: " +:+ e)
    | None => ret tt
    end ;;
    ret (b, true).

Definition mustDecodeHex (s : string) : M (list Z) :=
  match DecodeString s with
  | inl err => errorf ("error decoding hex: " +:+ Hex.Error err) ;; ret []
  | inr res => ret res
  end.

(** The packages the tool calls into and whose sources are not part of
    [cmd/multitool]: [chain/crypto/ed25519], [.../hd25519],
    [chain/cos/bc], [chain/cos/txscript], [go-spew], [crypto/hmac],
    [crypto/sha512], [sha3] and [encoding/json].  They are taken as
    parameters: a function returning a Go [error] returns [None] or the
    text of the error. *)
Record Collaborators : Type := mkCollaborators {
  XPrv : Type;
  XPub : Type;
  PrivateKey : Type;
  PublicKey : Type;
  Hash : Type;
  Block : Type;
  BlockHeader : Type;
  TxData : Type;
  (* hd25519 *)
  XPrvFromString : string -> option XPrv;
  XPubFromString : string -> option XPub;
  PrvFromBytes : list Z -> option PrivateKey;
  PubFromBytes : list Z -> option PublicKey;
  PrvBytes : PrivateKey -> list Z;
  PubBytes : PublicKey -> list Z;
  NewXKeys : list Z -> string + XPrv * XPub;
  XPrv_Derive : XPrv -> list Z -> XPrv;
  XPub_Derive : XPub -> list Z -> XPub;
  XPrv_Public : XPrv -> XPub;
  XPrv_String : XPrv -> string;
  XPub_String : XPub -> string;
  XPrv_Sign : XPrv -> list Z -> list Z;
  XPub_Verify : XPub -> list Z -> list Z -> bool;
  (* ed25519 *)
  GenerateKey : list Z -> string + PublicKey * PrivateKey;
  PrivateKey_Public : PrivateKey -> PublicKey;
  ed25519_Sign : PrivateKey -> list Z -> list Z;
  ed25519_Verify : PublicKey -> list Z -> list Z -> bool;
  (* bc *)
  Hash_zero : Hash;
  Hash_UnmarshalText : string -> string + Hash;
  Hash_String : Hash -> string;
  ComputeAssetID : list Z -> Hash -> Z -> Hash;
  Block_UnmarshalJSON : string -> string + Block;
  BlockHeader_UnmarshalJSON : string -> string + BlockHeader;
  TxData_UnmarshalText : string -> string + TxData;
  (* spew.Printf("%v", _) *)
  spew_Block : Block -> string;
  spew_BlockHeader : BlockHeader -> string;
  spew_TxData : TxData -> string;
  (* txscript *)
  DisasmString : list Z -> option string;
  ParseScriptString : string -> option (list Z);
  (* crypto *)
  hmac_sha512 : list Z -> list Z -> list Z;
  sha3_Sum256 : list Z -> list Z
}.

Section Handlers.

Context (E : Collaborators).

Definition mustDecodeHash (s : string) : M (Hash E) :=
  match Hash_UnmarshalText E s with
  | inl err => errorf ("error decoding hash: " +:+ err) ;; ret (Hash_zero E)
  | inr h => ret h
  end.

Definition assetid (args : list string) : M unit :=
  '(issuanceInp, usedStdin) <- input args 0 false ;;
  '(genesisInp, _) <- input args 1 usedStdin ;;
  issuance <- mustDecodeHex issuanceInp ;;
  genesis <- mustDecodeHash genesisInp ;;
  let assetID := ComputeAssetID E issuance genesis 1 in
  Println (Hash_String E assetID).

Definition block (args : list string) : M unit :=
  '(inp, _) <- input args 0 false ;;
  match Block_UnmarshalJSON E inp with
  | inl err => errorf ("error unmarshaling block: " +:+ err)
  | inr block => Print (spew_Block E block +:+ nl)
  end.

Definition blockheader (args : list string) : M unit :=
  '(inp, _) <- input args 0 false ;;
  match BlockHeader_UnmarshalJSON E inp with
  | inl err => errorf ("error unmarshaling blockheader: " +:+ err)
  | inr bh => Print (spew_BlockHeader E bh +:+ nl)
  end.

(** The loop of [derive] over [args[1:]]. *)
Fixpoint derive_path (rest : list string) (path : list Z) : M (list Z) :=
  match rest with
  | [] => ret path
  | a :: rest' =>
      let '(p, err) := ParseUint a 32 in
      when (bool_decide (err <> None))
        (errorf ("could not parse " +:+ a +:+ " as uint32")) ;;
      derive_path rest' (path ++ [p mod 2 ^ 32])
  end.

(** [derive]; with no argument at all [make] is given the capacity
    [-1] and panics. *)
Definition derive (args : list string) : M unit :=
  '(k, _) <- input args 0 false ;;
  when (length args =? 0)%nat panic ;;
  path <- derive_path (drop 1 args) [] ;;
  match XPrvFromString E k with
  | Some xprv => Println (XPrv_String E (XPrv_Derive E xprv path))
  | None =>
      match XPubFromString E k with
      | Some xpub => Println (XPub_String E (XPub_Derive E xpub path))
      | None => errorf "could not parse key"
      end
  end.

Definition genprv (_ : list string) : M unit :=
  fun w =>
    match GenerateKey E (rand w) with
    | inl err => errorf ("unexpected error " +:+ err) w
    | inr (_, prv) => Println (EncodeToString (PrvBytes E prv)) w
    end.

Definition genxprv (_ : list string) : M unit :=
  fun w =>
    match NewXKeys E (rand w) with
    | inl err => errorf ("unexpected error " +:+ err) w
    | inr (xprv, _) => Println (XPrv_String E xprv) w
    end.

Definition hexCmd (args : list string) : M unit :=
  '(inp, _) <- input args 0 false ;;
  match DecodeString inp with
  | inr b => Println (string_of_bytes b)
  | inl _ => Println (EncodeToString (bytes_of_string inp))
  end.

Definition hmac512 (args : list string) : M unit :=
  '(key, usedStdin) <- input args 0 false ;;
  '(val, _) <- input args 1 usedStdin ;;
  k <- mustDecodeHex key ;;
  v <- mustDecodeHex val ;;
  Println (EncodeToString (hmac_sha512 E k v)).

Definition pub (args : list string) : M unit :=
  '(inp, _) <- input args 0 false ;;
  match XPrvFromString E inp with
  | Some xprv => Println (XPub_String E (XPrv_Public E xprv))
  | None =>
      b <- mustDecodeHex inp ;;
      match PrvFromBytes E b with
      | Some prv => Println (EncodeToString (PubBytes E (PrivateKey_Public E prv)))
      | None => errorf "could not parse key"
      end
  end.

Definition script (args : list string) : M unit :=
  '(inp, _) <- input args 0 false ;;
  let assemble :=
    match ParseScriptString E inp with
    | Some parsed => Println (EncodeToString parsed)
    | None => errorf "could not parse input"
    end in
  match DecodeString inp with
  | inr b =>
      match DisasmString E b with
      | Some dis => Println dis
      | None => assemble
      end
  | inl _ => assemble
  end.

Definition sha3Cmd (args : list string) : M unit :=
  '(inp, _) <- input args 0 false ;;
  b <- mustDecodeHex inp ;;
  Println (EncodeToString (sha3_Sum256 E b)).

(** [sign]; a [nil] key is [None]. *)
Definition sign (args : list string) : M unit :=
  '(keyInp, usedStdin) <- input args 0 false ;;
  '(msgInp, _) <- input args 1 usedStdin ;;
  '(xprv, prv) <-
    match XPrvFromString E keyInp with
    | Some xprv => ret (Some xprv, None)
    | None =>
        b <- mustDecodeHex keyInp ;;
        let prv := PrvFromBytes E b in
        when (bool_decide (prv = None)) (errorf "could not parse key") ;;
        ret (None, prv)
    end ;;
  msg <- mustDecodeHex msgInp ;;
  signed <-
    match xprv with
    | Some xprv => ret (XPrv_Sign E xprv msg)
    | None => prv <- orPanic prv ;; ret (ed25519_Sign E prv msg)
    end ;;
  Println (EncodeToString signed).

Definition tx (args : list string) : M unit :=
  '(inp, _) <- input args 0 false ;;
  match TxData_UnmarshalText E inp with
  | inl err => errorf ("error unmarshaling tx: " +:+ err)
  | inr tx => Print (spew_TxData E tx +:+ nl)
  end.

Definition verify (args : list string) : M unit :=
  '(keyInp, usedStdin) <- input args 0 false ;;
  '(msgInp, usedStdin) <- input args 1 usedStdin ;;
  '(sigInp, _) <- input args 2 usedStdin ;;
  '(xpub, pub) <-
    match XPubFromString E keyInp with
    | Some xpub => ret (Some xpub, None)
    | None =>
        b <- mustDecodeHex keyInp ;;
        let pub := PubFromBytes E b in
        when (bool_decide (pub = None)) (errorf "could not parse key") ;;
        ret (None, pub)
    end ;;
  msg <- mustDecodeHex msgInp ;;
  sig <- mustDecodeHex sigInp ;;
  verified <-
    match xpub with
    | Some xpub => ret (XPub_Verify E xpub msg sig)
    | None => pub <- orPanic pub ;; ret (ed25519_Verify E pub msg sig)
    end ;;
  if verified : bool then Println "verified" else Println "not verified".

Definition zerohash (_ : list string) : M unit :=
  Println (Hash_String E (Hash_zero E)).

End Handlers.

(** [fmt.Println(n)] on an integer: the decimal text of [strconv]. *)
Definition Println_int64 (n : Z) : M unit :=
  s <- orPanic (FormatInt n) ;; Println s.

Definition Println_uint64 (n : Z) : M unit :=
  s <- orPanic (FormatUint n) ;; Println s.

(** The [case "-to"] of [dovarint]; [buf] is the zeroed [[10]byte]. *)
Definition dovarint_to (val : string) (signed : bool) : M unit :=
  let '(val10, err) := ParseInt val 64 in
  when (bool_decide (err <> None)) (errorf "could not parse base 10 int") ;;
  let buf := repeat 0 10 in
  '(buf, n) <- orPanic (if signed then PutVarint buf val10
                        else PutUvarint buf (val10 mod 2 ^ 64)) ;;
  Println (EncodeToString (take n buf)).

(** The [case "-from"] of [dovarint]. *)
Definition dovarint_from (val : string) (signed : bool) : M unit :=
  val16 <- mustDecodeHex val ;;
  if signed then
    let '(n, nbytes) := Varint val16 in
    when (nbytes <=? 0) (errorf "could not parse varint") ;;
    Println_int64 n
  else
    let '(n, nbytes) := Uvarint val16 in
    when (nbytes <=? 0) (errorf "could not parse varint") ;;
    Println_uint64 n.

(** The [switch mode] of [dovarint]. *)
Definition dovarint_switch (mode val : string) (signed : bool) : M unit :=
  if String.eqb mode "-to" then dovarint_to val signed
  else if String.eqb mode "-from" then dovarint_from val signed
  else ret tt.

Definition dovarint (args : list string) (signed : bool) : M unit :=
  let '(mode, args) :=
    match args with
    | a :: rest =>
        if String.eqb a "-from" || String.eqb a "-to" then (a, rest)
        else ("", args)
    | [] => ("", args)
    end in
  '(val, _) <- input args 0 false ;;
  let '(mode, val) :=
    if String.eqb mode "" then
      if HasPrefix val "0x" then ("-from", TrimPrefix val "0x")
      else
        match ParseInt val 64 with
        | (_, None) => ("-to", val)
        | (_, Some _) => ("-from", val)
        end
    else (mode, val) in
  dovarint_switch mode val signed.

Definition varint (args : list string) : M unit := dovarint args true.

Definition uvarint (args : list string) : M unit := dovarint args false.

(** The call [subcommand.fn(args)]. *)
Definition call (E : Collaborators) (f : handler) (args : list string) : M unit :=
  match f with
  | fn_assetid => assetid E args
  | fn_block => block E args
  | fn_blockheader => blockheader E args
  | fn_derive => derive E args
  | fn_genprv => genprv E args
  | fn_genxprv => genxprv E args
  | fn_hexCmd => hexCmd args
  | fn_hmac512 => hmac512 E args
  | fn_pub => pub E args
  | fn_script => script E args
  | fn_sha3Cmd => sha3Cmd E args
  | fn_sign => sign E args
  | fn_tx => tx E args
  | fn_uvarint => uvarint args
  | fn_varint => varint args
  | fn_verify => verify E args
  | fn_zerohash => zerohash E args
  | fn_help => help args
  end.

(** [main]; [osArgs] is [os.Args]. *)
Definition main (E : Collaborators) (osArgs : list string) : M unit :=
  when (length osArgs <? 2)%nat
    (a0 <- orPanic (osArgs !! 0%nat) ;;
     errorf ("no subcommand (try " +:+ dquote +:+ a0 +:+ " help" +:+ dquote +:+ ")")) ;;
  name <- orPanic (osArgs !! 1%nat) ;;
  subcommand <- mustSubcommand name ;;
  call E (fn subcommand) (drop 2 osArgs).

(** ** A sample of the collaborators *)

(** Modelled from the spec: the key, hash, block and script packages
    that the tool calls are absent from the sources.  This instance
    follows the spec's description of them as far as it goes (an
    extended key text carries a distinguishing tag, a raw private key
    and a raw public key have two different fixed byte lengths, a
    signature verifies under the public form of the key that made it)
    and is used to run the commands on concrete inputs; it is not the
    cryptography of the repository. *)
Definition sample : Collaborators :=
  let tagged (tag s : string) : option (list Z) :=
    if HasPrefix s tag then
      match DecodeString (drop_prefix s tag) with
      | inr b => Some b
      | inl _ => None
      end
    else None in
  let sized (n : nat) (b : list Z) : option (list Z) :=
    if (length b =? n)%nat then Some b else None in
  let decoded (s : string) : string + string :=
    if HasPrefix s "{" then inr s else inl "invalid character" in
  {| XPrv := list Z; XPub := list Z; PrivateKey := list Z; PublicKey := list Z;
     Hash := list Z; Block := string; BlockHeader := string; TxData := string;
     XPrvFromString := tagged "xprv";
     XPubFromString := tagged "xpub";
     PrvFromBytes := sized 64%nat;
     PubFromBytes := sized 32%nat;
     PrvBytes := fun k => k;
     PubBytes := fun k => k;
     NewXKeys := fun r =>
       if (length r <? 64)%nat then inl "unexpected EOF"
       else inr (take 64%nat r, drop 32%nat (take 64%nat r));
     XPrv_Derive := fun k path => k ++ path;
     XPub_Derive := fun k path => k ++ path;
     XPrv_Public := drop 32%nat;
     XPrv_String := fun k => "xprv" +:+ EncodeToString k;
     XPub_String := fun k => "xpub" +:+ EncodeToString k;
     XPrv_Sign := fun k msg => drop 32%nat k ++ msg;
     XPub_Verify := fun k msg sig => bool_decide (sig = k ++ msg);
     GenerateKey := fun r =>
       if (length r <? 64)%nat then inl "unexpected EOF"
       else inr (drop 32%nat (take 64%nat r), take 64%nat r);
     PrivateKey_Public := drop 32%nat;
     ed25519_Sign := fun k msg => drop 32%nat k ++ msg;
     ed25519_Verify := fun k msg sig => bool_decide (sig = k ++ msg);
     Hash_zero := repeat 0 32%nat;
     Hash_UnmarshalText := fun s =>
       match DecodeString s with
       | inr b => if (length b =? 32)%nat then inr b else inl "bad hash length"
       | inl e => inl (Hex.Error e)
       end;
     Hash_String := EncodeToString;
     ComputeAssetID := fun issuance genesis _ => take 32%nat (issuance ++ genesis);
     Block_UnmarshalJSON := decoded;
     BlockHeader_UnmarshalJSON := decoded;
     TxData_UnmarshalText := decoded;
     spew_Block := fun b => b;
     spew_BlockHeader := fun b => b;
     spew_TxData := fun b => b;
     DisasmString := fun _ => None;
     ParseScriptString := fun _ => None;
     hmac_sha512 := fun k v => k ++ v;
     sha3_Sum256 := fun b => b |}.

(** A terminal on which nothing was typed and nothing printed yet. *)
Definition quiet : world := mkWorld [] "" [].

(** Standard input holding one line, nothing printed yet. *)
Definition piped (s : string) : world := mkWorld [ReadData s; ReadEOF] "" [].

(** The argument at [n] is missing or is the placeholder. *)
Definition from_stdin (args : list string) (n : nat) : Prop :=
  args !! n = None \/ args !! n = Some "-".

(** [args] does not start with one of the two mode flags. *)
Definition no_flag (args : list string) : Prop :=
  forall a rest, args = a :: rest -> a <> "-from" /\ a <> "-to".

(** The bytes that [PutUvarint] stores for [x]. *)
Fixpoint uvarint_bytes (fuel : nat) (x : Z) : list Z :=
  if 128 <=? x then
    match fuel with
    | O => []
    | S fuel' => Z.lor (x mod 256) 128 :: uvarint_bytes fuel' (Z.shiftr x 7)
    end
  else [x mod 256].

(** The [uint64] that [dovarint] encodes for the parsed value [n]: its
    zig-zag under [varint], its conversion under [uvarint]. *)
Definition varint_word (signed : bool) (n : Z) : Z :=
  if signed then
    let ux := (n mod 2 ^ 64 * 2) mod 2 ^ 64 in
    if n <? 0 then Z.lxor ux (2 ^ 64 - 1) else ux
  else n mod 2 ^ 64.

(** The text [inp] fails every private-key interpretation: it is no
    extended private key, and it is not the hex of a raw private key. *)
Definition no_private_key (E : Collaborators) (inp : string) : Prop :=
  XPrvFromString E inp = None /\
  forall b, DecodeString inp = inr b -> PrvFromBytes E b = None.

(** A raw public key of the sample, in hex: 32 bytes [00]. *)
Definition sample_pub : string :=
  "0000000000000000000000000000000000000000000000000000000000000000".

(** The round trip of the codec on [n]: the decimal text of [n] is
    encoded under [-to] to one line of hex, which is decoded under
    [-from] to the decimal text again. *)
Definition round_trips (signed : bool) (n : Z) : Prop :=
  exists dec h,
    (if signed then FormatInt n else FormatUint n) = Some dec /\
    (forall rest w,
        dovarint ("-to" :: dec :: rest) signed w = Done tt (put (h +:+ nl) w)) /\
    (forall rest w,
        dovarint ("-from" :: h :: rest) signed w = Done tt (put (dec +:+ nl) w)).

(** The characters that stand for a hex digit. *)
Definition hex_digits : string := "0123456789abcdefABCDEF".

(** [c] occurs in [s]. *)
Fixpoint mem_char (c : ascii) (s : string) : bool :=
  match s with
  | EmptyString => false
  | String d r => Ascii.eqb c d || mem_char c r
  end.

(** Every character of [s] occurs in [alphabet]. *)
Fixpoint only_chars (alphabet s : string) : bool :=
  match s with
  | EmptyString => true
  | String c r => mem_char c alphabet && only_chars alphabet r
  end.

(** [s] is hex text: an even number of hex digits. *)
Definition is_hex_text (s : string) : bool :=
  Nat.even (String.length s) && only_chars hex_digits s.

(** The lower case of an ASCII letter, as [strings.ToLower] has it. *)
Definition lower (c : ascii) : ascii :=
  let b := byte_of_ascii c in
  if (65 <=? b) && (b <=? 90) then ascii_of_byte (b + 32) else c.

Fixpoint ToLower (s : string) : string :=
  match s with
  | EmptyString => EmptyString
  | String c r => String (lower c) (ToLower r)
  end.

(** Every character of [s] is a hex digit of [fromHexChar]. *)
Fixpoint all_hex (s : string) : bool :=
  match s with
  | EmptyString => true
  | String c r =>
      match fromHexChar c with
      | Some _ => all_hex r
      | None => false
      end
  end.

(** The diagnostics of the tool: the texts that its calls of [errorf]
    print, one constructor a call site (the two calls of
    [could not parse key] apart, which print the same text). *)
Inductive diagnostic : string -> Prop :=
| diag_stdin_twice : diagnostic "can use stdin for only one arg"
| diag_key : diagnostic "could not parse key"
| diag_script : diagnostic "could not parse input"
| diag_decimal : diagnostic "could not parse base 10 int"
| diag_varint : diagnostic "could not parse varint"
| diag_unknown name :
    diagnostic ("unknown subcommand " +:+ dquote +:+ name +:+ dquote)
| diag_stdin err : diagnostic ("unexpected error: " +:+ err)
| diag_hex err : diagnostic ("error decoding hex: " +:+ Hex.Error err)
| diag_hash err : diagnostic ("error decoding hash: " +:+ err)
| diag_block err : diagnostic ("error unmarshaling block: " +:+ err)
| diag_blockheader err : diagnostic ("error unmarshaling blockheader: " +:+ err)
| diag_tx err : diagnostic ("error unmarshaling tx: " +:+ err)
| diag_uint32 a : diagnostic ("could not parse " +:+ a +:+ " as uint32")
| diag_rand err : diagnostic ("unexpected error " +:+ err).

(** [m] prints nothing unless it fails, and does not panic: it returns
    a value that satisfies [Q] with the standard output as it was, or
    it exits with status 1 after printing one diagnostic and nothing
    else. *)
Definition silent_with {A} (Q : A -> Prop) (m : M A) : Prop :=
  forall w,
    (exists a w', m w = Done a w' /\ stdout w' = stdout w /\ Q a) \/
    (exists msg w',
        m w = Exited 1 (put (msg +:+ nl) w') /\ stdout w' = stdout w /\
        diagnostic msg).

(** [m] does not panic, does not return without output and prints
    nothing before a diagnostic: it returns after adding a text ended
    by a line feed to the standard output, or it exits with status 1
    after adding one diagnostic and nothing else. *)
Definition result_or_diagnostic (m : M unit) : Prop :=
  forall w,
    (exists text w',
        m w = Done tt (put (text +:+ nl) w') /\ stdout w' = stdout w) \/
    (exists msg w',
        m w = Exited 1 (put (msg +:+ nl) w') /\ stdout w' = stdout w /\
        diagnostic msg).

(** The text that [help] prints for the registry entries [entries], in
    their order. *)
Definition help_listing (entries : list (string * command)) : string :=
  foldr (fun '(name, cmd) text =>
           (fmt_16 name +:+ " " +:+ help_text cmd +:+ nl) +:+ text)
        "" entries.

(** ** The input resolver *)

Lemma append_assoc (a b c : string) : (a +:+ b) +:+ c = a +:+ (b +:+ c).
Proof.
  induction a as [| x a IH]; [reflexivity |].
  change (String x ((a +:+ b) +:+ c) = String x (a +:+ (b +:+ c))).
  rewrite IH. reflexivity.
Qed.

Section Resolver.

Implicit Types (args : list string) (n : nat) (w : world).

Lemma input_literal args n used w a :
  args !! n = Some a -> a <> "-" -> input args n used w = Done (a, used) w.
Proof.
  intros Hn Ha. unfold input.
  assert (Hlt : (n <? length args)%nat = true).
  { apply Nat.ltb_lt. eapply lookup_lt_Some; eassumption. }
  rewrite Hlt, Hn. simpl.
  assert (Hneq : String.eqb a "-" = false) by (apply String.eqb_neq; exact Ha).
  rewrite Hneq. reflexivity.
Qed.

Lemma from_stdin_test args n :
  from_stdin args n ->
  (n <? length args)%nat && negb (String.eqb (default "" (args !! n)) "-") = false.
Proof.
  intros [Hn | Hn]; rewrite Hn; simpl.
  - apply lookup_ge_None in Hn.
    assert (Hge : (n <? length args)%nat = false) by (apply Nat.ltb_ge; lia).
    rewrite Hge. reflexivity.
  - apply andb_false_r.
Qed.

Lemma input_stdin_twice args n w :
  from_stdin args n ->
  input args n true w = Exited 1 (put ("can use stdin for only one arg" +:+ nl) w).
Proof.
  intros Hn. unfold input. rewrite (from_stdin_test _ _ Hn). reflexivity.
Qed.

Lemma input_stdin_once args n w b rest :
  from_stdin args n ->
  ReadAll_loop (stdin w) "" = (b, None, rest) ->
  input args n false w = Done (b, true) (mkWorld rest (stdout w) (rand w)).
Proof.
  intros Hn Hr. unfold input. rewrite (from_stdin_test _ _ Hn).
  unfold bind, when, ret, ReadAll_stdin. rewrite Hr. reflexivity.
Qed.

Lemma input_stdin_error args n w b e rest :
  from_stdin args n ->
  ReadAll_loop (stdin w) "" = (b, Some e, rest) ->
  input args n false w
  = Exited 1 (put ("unexpected error: " +:+ e +:+ nl) (mkWorld rest (stdout w) (rand w))).
Proof.
  intros Hn Hr. unfold input. rewrite (from_stdin_test _ _ Hn).
  unfold bind, when, ret, ReadAll_stdin. rewrite Hr. reflexivity.
Qed.

End Resolver.

(** C4: an argument that is present and is not the placeholder is
    returned verbatim, the world (standard input included) and the
    stdin-used flag unchanged; a second resolution from standard input
    prints the multiple-use message and exits with status 1; one
    resolution from standard input whose read succeeds returns the text
    read with the flag set, after which every literal argument still
    resolves. *)
Theorem input_resolver_contract :
  (forall (args : list string) n used w a,
      args !! n = Some a -> a <> "-" ->
      input args n used w = Done (a, used) w) /\
  (forall (args : list string) n m w b w' used',
      from_stdin args n -> from_stdin args m ->
      input args n false w = Done (b, used') w' ->
      used' = true /\
      input args m used' w'
      = Exited 1 (put ("can use stdin for only one arg" +:+ nl) w')) /\
  (forall (args : list string) n w b rest,
      from_stdin args n ->
      ReadAll_loop (stdin w) "" = (b, None, rest) ->
      let w' := mkWorld rest (stdout w) (rand w) in
      input args n false w = Done (b, true) w' /\
      forall m a, args !! m = Some a -> a <> "-" ->
                  input args m true w' = Done (a, true) w').
Proof.
  split; [| split].
  - intros. apply input_literal; assumption.
  - intros args n m w b w' used' Hn Hm Hin.
    assert (used' = true) as ->.
    { destruct (ReadAll_loop (stdin w) "") as [[b0 [e |]] rest] eqn:Hr.
      - rewrite (input_stdin_error _ _ _ _ _ _ Hn Hr) in Hin. discriminate.
      - rewrite (input_stdin_once _ _ _ _ _ Hn Hr) in Hin. congruence. }
    split; [reflexivity | apply input_stdin_twice; assumption].
  - intros args n w b rest Hn Hr w'. split.
    + apply input_stdin_once; assumption.
    + intros. apply input_literal; assumption.
Qed.

(** ** The registry and the dispatcher *)

Section Dispatch.

Context (E : Collaborators).

Lemma mustSubcommand_unknown name w :
  subcommands !! name = None ->
  mustSubcommand name w
  = Exited 1 (put ("unknown subcommand " +:+ dquote +:+ name +:+ dquote +:+ nl) w).
Proof.
  intros Hname. unfold mustSubcommand. rewrite Hname.
  unfold errorf, bind, Println, Print, Exit. simpl.
  do 2 f_equal. rewrite !append_assoc. reflexivity.
Qed.

Lemma mustSubcommand_known name cmd w :
  subcommands !! name = Some cmd -> mustSubcommand name w = Done cmd w.
Proof. intros Hname. unfold mustSubcommand. rewrite Hname. reflexivity. Qed.

Lemma main_dispatch prog name rest w :
  main E (prog :: name :: rest) w
  = (subcommand <- mustSubcommand name ;; call E (fn subcommand) rest) w.
Proof. reflexivity. Qed.

End Dispatch.

(** C6: for a name that the registry does not hold, [main] prints the
    one line [unknown subcommand "name"] and exits with status 1; so
    does [help name]. *)
Theorem unknown_subcommand_is_fatal (E : Collaborators) prog name rest w :
  subcommands !! name = None ->
  let msg := "unknown subcommand " +:+ dquote +:+ name +:+ dquote +:+ nl in
  main E (prog :: name :: rest) w = Exited 1 (put msg w) /\
  help (name :: rest) w = Exited 1 (put msg w).
Proof.
  intros Hname msg. split.
  - rewrite main_dispatch. unfold bind.
    rewrite (mustSubcommand_unknown _ _ Hname). reflexivity.
  - unfold help, bind. rewrite (mustSubcommand_unknown _ _ Hname). reflexivity.
Qed.

Lemma unknown_subcommand_is_fatal_witness :
  main sample ["multitool"; "frobnicate"] quiet
  = Exited 1 (mkWorld [] ("unknown subcommand " +:+ dquote +:+ "frobnicate" +:+ dquote +:+ nl) []).
Proof.
  apply (unknown_subcommand_is_fatal sample "multitool" "frobnicate" [] quiet).
  vm_compute. reflexivity.
Defined.

(** ** Mode inference of the varint codec *)

Lemma errorf_run msg w : errorf msg w = Exited 1 (put (msg +:+ nl) w).
Proof. reflexivity. Qed.

Lemma mustDecodeHex_error s e w :
  DecodeString s = inl e ->
  mustDecodeHex s w = Exited 1 (put ("error decoding hex: " +:+ Hex.Error e +:+ nl) w).
Proof.
  intros Hs. unfold mustDecodeHex. rewrite Hs. unfold bind. rewrite errorf_run.
  rewrite append_assoc. reflexivity.
Qed.

Lemma mustDecodeHex_ok s b w : DecodeString s = inr b -> mustDecodeHex s w = Done b w.
Proof. intros Hs. unfold mustDecodeHex. rewrite Hs. reflexivity. Qed.

Lemma dovarint_from_bad_hex v e signed w :
  DecodeString v = inl e ->
  dovarint_from v signed w
  = Exited 1 (put ("error decoding hex: " +:+ Hex.Error e +:+ nl) w).
Proof.
  intros Hv. unfold dovarint_from, bind.
  rewrite (mustDecodeHex_error _ _ _ Hv). reflexivity.
Qed.

Lemma HasPrefix_0x val :
  HasPrefix val "0x" = true -> exists r, val = String "0" (String "x" r).
Proof.
  destruct val as [| c1 [| c2 r]]; cbn [HasPrefix]; try discriminate.
  - destruct (Ascii.eqb "0" c1); intros H; discriminate H.
  - destruct (Ascii.eqb_spec "0" c1) as [<- |]; [| intros H; discriminate H].
    destruct (Ascii.eqb_spec "x" c2) as [<- |]; [| intros H; discriminate H].
    intros _. exists r. reflexivity.
Qed.

(** A text with the prefix [0x] is never hex: its length is odd, or its
    second character is refused. *)
Lemma DecodeString_0x val :
  HasPrefix val "0x" = true ->
  exists e, DecodeString val = inl e /\ (e = ErrLength \/ e = InvalidByteError 120).
Proof.
  intros [r ->]%HasPrefix_0x. unfold DecodeString.
  destruct (Nat.odd _).
  - exists ErrLength. auto.
  - exists (InvalidByteError 120). split; [reflexivity | auto].
Qed.

Lemma dovarint_no_flag args signed w :
  no_flag args ->
  dovarint args signed w
  = ('(val, _) <- input args 0 false ;;
     let '(mode, val) :=
       if HasPrefix val "0x" then ("-from", TrimPrefix val "0x")
       else
         match ParseInt val 64 with
         | (_, None) => ("-to", val)
         | (_, Some _) => ("-from", val)
         end in
     dovarint_switch mode val signed) w.
Proof.
  intros Hnf. unfold dovarint. destruct args as [| a rest]; [reflexivity |].
  destruct (Hnf a rest eq_refl) as [Hfrom Hto].
  apply String.eqb_neq in Hfrom, Hto. rewrite Hfrom, Hto. reflexivity.
Qed.

Lemma dovarint_inferred args signed w val used w' :
  no_flag args ->
  input args 0 false w = Done (val, used) w' ->
  dovarint args signed w
  = if HasPrefix val "0x" then dovarint_from (TrimPrefix val "0x") signed w'
    else
      match ParseInt val 64 with
      | (_, None) => dovarint_to val signed w'
      | (_, Some _) => dovarint_from val signed w'
      end.
Proof.
  intros Hnf Hin. rewrite (dovarint_no_flag _ _ _ Hnf). unfold bind. rewrite Hin.
  destruct (HasPrefix val "0x"); [reflexivity |].
  destruct (ParseInt val 64) as [n [e |]]; reflexivity.
Qed.

Lemma dovarint_flag_from val rest signed w :
  val <> "-" ->
  dovarint ("-from" :: val :: rest) signed w = dovarint_from val signed w.
Proof.
  intros Hval. unfold dovarint. simpl. unfold bind.
  rewrite (input_literal (val :: rest) 0 false w val eq_refl Hval). reflexivity.
Qed.

Lemma dovarint_flag_to val rest signed w :
  val <> "-" ->
  dovarint ("-to" :: val :: rest) signed w = dovarint_to val signed w.
Proof.
  intros Hval. unfold dovarint. simpl. unfold bind.
  rewrite (input_literal (val :: rest) 0 false w val eq_refl Hval). reflexivity.
Qed.

(** ** Arithmetic of the codecs *)

Section Bits.

Lemma lor_disjoint_add x v s :
  0 <= s -> 0 <= x < 2 ^ s -> Z.lor x (v * 2 ^ s) = x + v * 2 ^ s.
Proof.
  intros Hs Hx.
  assert (Hland : Z.land x (v * 2 ^ s) = 0).
  { apply Z.bits_inj'. intros i Hi. rewrite Z.land_spec, Z.bits_0.
    destruct (Z.lt_ge_cases i s) as [Hlt | Hge].
    - rewrite Z.mul_pow2_bits_low by lia. apply andb_false_r.
    - replace (Z.testbit x i) with false; [reflexivity |].
      symmetry. rewrite <- (Z.mod_small x (2 ^ s)) by lia.
      apply Z.mod_pow2_bits_high. lia. }
  rewrite <- Z.lxor_lor by exact Hland.
  symmetry. apply Z.add_nocarry_lxor. exact Hland.
Qed.

Lemma land_127 b : Z.land b 127 = b mod 128.
Proof. change 127 with (Z.ones 7). rewrite Z.land_ones by lia. reflexivity. Qed.

Lemma land_15 b : Z.land b 15 = b mod 16.
Proof. change 15 with (Z.ones 4). rewrite Z.land_ones by lia. reflexivity. Qed.

(** The continuation byte [byte(x) | 0x80]. *)
Lemma continuation_byte x : Z.lor (x mod 256) 128 = x mod 128 + 128.
Proof.
  assert (Hlow : 0 <= x mod 128 < 2 ^ 7) by (apply Z.mod_pos_bound; lia).
  replace (x mod 128 + 128) with (Z.lor (x mod 128) (1 * 2 ^ 7))
    by (rewrite lor_disjoint_add by lia; reflexivity).
  apply Z.bits_inj'. intros i Hi. rewrite !Z.lor_spec.
  change 256 with (2 ^ 8). change 128 with (2 ^ 7). change (1 * 2 ^ 7) with (2 ^ 7).
  destruct (Z.lt_ge_cases i 7) as [Hlt | Hge].
  - rewrite !Z.mod_pow2_bits_low by lia. reflexivity.
  - destruct (Z.eq_dec i 7) as [-> | Hne].
    + rewrite Z.pow2_bits_true by lia. rewrite !orb_true_r. reflexivity.
    + rewrite !Z.mod_pow2_bits_high by lia. reflexivity.
Qed.

End Bits.

Section Uvarint.

Lemma shiftr_7_bound x k :
  0 <= k -> 0 <= x < 2 ^ (k + 7) -> 0 <= Z.shiftr x 7 < 2 ^ k.
Proof.
  intros Hk Hx. rewrite Z.shiftr_div_pow2 by lia.
  rewrite Z.pow_add_r in Hx by lia.
  split; [apply Z.div_pos; lia |].
  apply Z.div_lt_upper_bound; lia.
Qed.

Lemma PutUvarint_loop_bytes fuel :
  forall (buf : list Z) (i : nat) x,
    (1 <= fuel)%nat -> (i + fuel <= length buf)%nat ->
    0 <= x < 2 ^ (7 * Z.of_nat fuel) ->
    let enc := uvarint_bytes fuel x in
    PutUvarint_loop fuel buf i x
    = Some (take i buf ++ enc ++ drop (i + length enc) buf, (i + length enc)%nat).
Proof.
  induction fuel as [| fuel IH]; intros buf i x Hfuel Hlen Hx; [lia |].
  assert (Hi : (i <? length buf)%nat = true) by (apply Nat.ltb_lt; lia).
  cbn [PutUvarint_loop uvarint_bytes]. destruct (128 <=? x) eqn:Hbig.
  - rewrite Hi. apply Z.leb_le in Hbig.
    assert (Hfuel' : (1 <= fuel)%nat).
    { destruct fuel; [| lia]. simpl in Hx. lia. }
    rewrite IH; [| exact Hfuel' | rewrite length_insert; lia |].
    + cbn [length]. f_equal. f_equal.
      * rewrite (take_S_r _ _ (Z.lor (x mod 256) 128))
          by (apply list_lookup_insert_eq; lia).
        rewrite take_insert_ge by lia. rewrite <- app_assoc. cbn [app].
        rewrite drop_insert_lt by lia.
        replace (S i + length (uvarint_bytes fuel (Z.shiftr x 7)))%nat
          with (i + S (length (uvarint_bytes fuel (Z.shiftr x 7))))%nat by lia.
        reflexivity.
      * lia.
    + apply shiftr_7_bound; [lia |].
      replace (7 * Z.of_nat fuel + 7) with (7 * Z.of_nat (S fuel)) by lia. exact Hx.
  - rewrite Hi. cbn [length]. f_equal. f_equal.
    + rewrite insert_take_drop by lia. cbn [app].
      replace (i + 1)%nat with (S i) by lia. reflexivity.
    + lia.
Qed.

End Uvarint.

Section UvarintDecode.

Lemma Uvarint_loop_bytes fuel :
  forall x i acc,
    (1 <= fuel)%nat -> 0 <= i -> i + Z.of_nat fuel <= 10 ->
    0 <= x < 2 ^ (64 - 7 * i) -> x < 2 ^ (7 * Z.of_nat fuel) ->
    0 <= acc < 2 ^ (7 * i) ->
    Uvarint_loop (uvarint_bytes fuel x) i acc (7 * i)
    = (acc + x * 2 ^ (7 * i), i + Z.of_nat (length (uvarint_bytes fuel x))).
Proof.
  induction fuel as [| fuel IH]; intros x i acc Hfuel Hi Hroom Hx Hxf Hacc; [lia |].
  assert (Hpow : 2 ^ (64 - 7 * i) * 2 ^ (7 * i) = 2 ^ 64).
  { rewrite <- Z.pow_add_r by lia. f_equal. lia. }
  assert (HP : 0 < 2 ^ (7 * i)) by (apply Z.pow_pos_nonneg; lia).
  cbn [uvarint_bytes]. destruct (128 <=? x) eqn:Hbig.
  - apply Z.leb_le in Hbig.
    assert (Hi8 : i <= 8).
    { destruct (Z.le_gt_cases i 8) as [? | Hgt]; [assumption | exfalso].
      assert (2 ^ (64 - 7 * i) <= 2 ^ 1) by (apply Z.pow_le_mono_r; lia).
      change (2 ^ 1) with 2 in *. lia. }
    assert (Hfuel' : (1 <= fuel)%nat).
    { destruct fuel; [| lia]. change (2 ^ (7 * Z.of_nat 1)) with 128 in Hxf. lia. }
    cbn [Uvarint_loop]. rewrite continuation_byte.
    assert (Hlow : 0 <= x mod 128 < 128) by (apply Z.mod_pos_bound; lia).
    replace (x mod 128 + 128 <? 128) with false by (symmetry; apply Z.ltb_ge; lia).
    rewrite land_127.
    replace ((x mod 128 + 128) mod 128) with (x mod 128)
      by (replace (x mod 128 + 128) with (x mod 128 + 1 * 128) by lia;
          rewrite Z.mod_add by lia; rewrite Z.mod_mod by lia; reflexivity).
    rewrite Z.shiftl_mul_pow2 by lia.
    assert (Hstep : 2 ^ (7 * (i + 1)) = 128 * 2 ^ (7 * i)).
    { replace (7 * (i + 1)) with (7 + 7 * i) by lia.
      rewrite Z.pow_add_r by lia. reflexivity. }
    assert (Htop : 2 ^ (7 * (i + 1)) <= 2 ^ 64) by (apply Z.pow_le_mono_r; lia).
    rewrite Z.mod_small by nia.
    rewrite lor_disjoint_add by lia.
    replace (7 * i + 7) with (7 * (i + 1)) by lia.
    rewrite IH; [| exact Hfuel' | lia | lia | | | nia].
    + f_equal.
      * rewrite Z.shiftr_div_pow2 by lia. change (2 ^ 7) with 128. rewrite Hstep.
        pose proof (Z.div_mod x 128 ltac:(lia)) as Hdm. nia.
      * cbn [length]. lia.
    + apply shiftr_7_bound; [lia |].
      replace (64 - 7 * (i + 1) + 7) with (64 - 7 * i) by lia. exact Hx.
    + apply shiftr_7_bound; [lia |].
      replace (7 * Z.of_nat fuel + 7) with (7 * Z.of_nat (S fuel)) by lia. lia.
  - apply Z.leb_gt in Hbig. rewrite Z.mod_small by lia.
    cbn [Uvarint_loop length]. replace (x <? 128) with true by (symmetry; apply Z.ltb_lt; lia).
    assert (Hchk : (9 <? i) || (i =? 9) && (1 <? x) = false).
    { replace (9 <? i) with false by (symmetry; apply Z.ltb_ge; lia).
      destruct (Z.eqb_spec i 9) as [-> | Hne]; [| reflexivity].
      change (2 ^ (64 - 7 * 9)) with 2 in Hx. simpl.
      apply Z.ltb_ge. lia. }
    rewrite Hchk. rewrite Z.shiftl_mul_pow2 by lia.
    rewrite Z.mod_small by nia.
    rewrite lor_disjoint_add by lia. f_equal.
Qed.

End UvarintDecode.

Section UvarintTop.

Lemma uvarint_bytes_nonempty fuel x :
  (1 <= fuel)%nat -> (1 <= length (uvarint_bytes fuel x))%nat.
Proof.
  intros Hfuel. destruct fuel; [lia |]. cbn [uvarint_bytes].
  destruct (128 <=? x); cbn [length]; lia.
Qed.

Lemma uvarint_bytes_range fuel :
  forall x, Forall (fun b => 0 <= b < 256) (uvarint_bytes fuel x).
Proof.
  induction fuel as [| fuel IH]; intros x; cbn [uvarint_bytes];
    destruct (128 <=? x); repeat constructor;
    try (apply Z.mod_pos_bound; lia); try apply IH;
    rewrite continuation_byte; pose proof (Z.mod_pos_bound x 128); lia.
Qed.

(** On a [uint64] and the ten-byte buffer of [dovarint], [PutUvarint]
    returns without a panic, and [Uvarint] reads back from the bytes
    written the value and their number. *)
Lemma PutUvarint_Uvarint x :
  0 <= x < 2 ^ 64 ->
  exists buf n,
    PutUvarint (repeat 0 10) x = Some (buf, n) /\
    (1 <= n)%nat /\ length (take n buf) = n /\
    Forall (fun b => 0 <= b < 256) (take n buf) /\
    Uvarint (take n buf) = (x, Z.of_nat n).
Proof.
  intros Hx. set (enc := uvarint_bytes 10 x).
  assert (Hx70 : 0 <= x < 2 ^ (7 * Z.of_nat 10)).
  { change (2 ^ (7 * Z.of_nat 10)) with (2 ^ 64 * 64). lia. }
  exists (take 0 (repeat 0 10) ++ enc ++ drop (0 + length enc) (repeat 0 10)),
    (0 + length enc)%nat.
  assert (Htake : take (0 + length enc)
                    (take 0 (repeat 0 10) ++ enc ++ drop (0 + length enc) (repeat 0 10))
                  = enc).
  { change (take 0 (repeat 0 10)) with (@nil Z).
    change (0 + length enc)%nat with (length enc).
    rewrite app_nil_l. apply take_app_length. }
  split; [| split; [| split; [| split]]].
  - unfold PutUvarint. change (length (repeat 0 10)) with 10%nat.
    apply (PutUvarint_loop_bytes 10 (repeat 0 10) 0 x); [lia | | exact Hx70].
    change (length (repeat 0 10)) with 10%nat. lia.
  - pose proof (uvarint_bytes_nonempty 10 x ltac:(lia)). fold enc in H. lia.
  - rewrite Htake. reflexivity.
  - rewrite Htake. apply uvarint_bytes_range.
  - rewrite Htake. unfold Uvarint. subst enc.
    pose proof (Uvarint_loop_bytes 10 x 0 0 ltac:(lia) ltac:(lia) ltac:(lia)) as Hdec.
    change (7 * 0) with 0 in Hdec. rewrite Hdec.
    + f_equal; change (2 ^ 0) with 1; lia.
    + change (64 - 0) with 64. exact Hx.
    + lia.
    + change (2 ^ 0) with 1. lia.
Qed.

Lemma lxor_ones_64 a : 0 <= a < 2 ^ 64 -> Z.lxor a (2 ^ 64 - 1) = 2 ^ 64 - 1 - a.
Proof.
  intros Ha. change (2 ^ 64 - 1) with (Z.ones 64).
  assert (Hland : Z.land (Z.lxor a (Z.ones 64)) a = 0).
  { apply Z.bits_inj'. intros i Hi.
    rewrite Z.land_spec, Z.lxor_spec, Z.bits_0.
    destruct (Z.lt_ge_cases i 64) as [Hlt | Hge].
    - rewrite Z.ones_spec_low by lia. destruct (Z.testbit a i); reflexivity.
    - replace (Z.testbit a i) with false; [apply andb_false_r |].
      symmetry. rewrite <- (Z.mod_small a (2 ^ 64)) by lia.
      apply Z.mod_pow2_bits_high. lia. }
  pose proof (Z.add_nocarry_lxor _ _ Hland) as Hadd.
  rewrite Z.lxor_assoc, (Z.lxor_comm (Z.ones 64) a), <- Z.lxor_assoc in Hadd.
  rewrite Z.lxor_nilpotent, Z.lxor_0_l in Hadd. lia.
Qed.

Lemma land_1 b : Z.land b 1 = b mod 2.
Proof. change 1 with (Z.ones 1). rewrite Z.land_ones by lia. reflexivity. Qed.

(** The zig-zag of [PutVarint] and its inverse in [Varint]. *)
Lemma zigzag_range x :
  - 2 ^ 63 <= x < 2 ^ 63 ->
  let ux := (x mod 2 ^ 64 * 2) mod 2 ^ 64 in
  let ux := if x <? 0 then Z.lxor ux (2 ^ 64 - 1) else ux in
  ux = (if x <? 0 then - 2 * x - 1 else 2 * x) /\ 0 <= ux < 2 ^ 64.
Proof.
  intros Hx. change (2 ^ 63) with 9223372036854775808 in Hx.
  destruct (x <? 0) eqn:Hneg; cbv zeta.
  - apply Z.ltb_lt in Hneg.
    assert (Hm : x mod 2 ^ 64 = x + 2 ^ 64).
    { symmetry. apply (Z.mod_unique _ _ (-1)); change (2 ^ 64) with 18446744073709551616; lia. }
    rewrite Hm.
    assert (Hm2 : ((x + 2 ^ 64) * 2) mod 2 ^ 64 = 2 * x + 2 ^ 64).
    { symmetry. apply (Z.mod_unique _ _ 1); change (2 ^ 64) with 18446744073709551616; lia. }
    rewrite Hm2. rewrite lxor_ones_64 by (change (2 ^ 64) with 18446744073709551616; lia).
    change (2 ^ 64) with 18446744073709551616. lia.
  - apply Z.ltb_ge in Hneg. rewrite (Z.mod_small x) by (change (2 ^ 64) with 18446744073709551616; lia).
    rewrite Z.mod_small by (change (2 ^ 64) with 18446744073709551616; lia).
    change (2 ^ 64) with 18446744073709551616. lia.
Qed.

Lemma unzigzag x :
  - 2 ^ 63 <= x < 2 ^ 63 ->
  let ux := if x <? 0 then - 2 * x - 1 else 2 * x in
  (if negb (Z.land ux 1 =? 0) then Z.lnot (Z.shiftr ux 1) else Z.shiftr ux 1) = x.
Proof.
  intros Hx. cbv zeta. rewrite land_1. rewrite !Z.shiftr_div_pow2 by lia.
  change (2 ^ 1) with 2. destruct (x <? 0) eqn:Hneg.
  - replace (- 2 * x - 1) with (1 + (- x - 1) * 2) by lia.
    rewrite Z.mod_add by lia. rewrite Z.div_add by lia.
    change (1 mod 2) with 1. change (1 / 2) with 0. simpl negb. cbv iota.
    unfold Z.lnot. lia.
  - replace (2 * x) with (0 + x * 2) by lia.
    rewrite Z.mod_add by lia. rewrite Z.div_add by lia. reflexivity.
Qed.

End UvarintTop.

Section HexRoundTrip.

Lemma byte_of_ascii_of_byte v : 0 <= v < 256 -> byte_of_ascii (ascii_of_byte v) = v.
Proof.
  intros Hv. unfold byte_of_ascii, ascii_of_byte. rewrite Z.mod_small by lia.
  rewrite N_ascii_embedding by lia. lia.
Qed.

Lemma fromHexChar_hexchar v : 0 <= v < 16 -> fromHexChar (hexchar v) = Some v.
Proof.
  intros Hv.
  assert (Hcases : v = 0 \/ v = 1 \/ v = 2 \/ v = 3 \/ v = 4 \/ v = 5 \/ v = 6 \/ v = 7 \/
                   v = 8 \/ v = 9 \/ v = 10 \/ v = 11 \/ v = 12 \/ v = 13 \/ v = 14 \/
                   v = 15) by lia.
  repeat (destruct Hcases as [-> | Hcases]; [reflexivity |]).
  subst v. reflexivity.
Qed.

Lemma nibbles_join b :
  0 <= b < 256 -> Z.lor (Z.shiftl (Z.shiftr b 4) 4 mod 256) (Z.land b 15) = b.
Proof.
  intros Hb. rewrite land_15, Z.shiftr_div_pow2, Z.shiftl_mul_pow2 by lia.
  change (2 ^ 4) with 16.
  pose proof (Z.div_mod b 16 ltac:(lia)) as Hdm.
  pose proof (Z.mod_pos_bound b 16 ltac:(lia)) as Hm.
  rewrite Z.mod_small by lia. rewrite Z.lor_comm.
  pose proof (lor_disjoint_add (b mod 16) (b / 16) 4 ltac:(lia) Hm) as Hjoin.
  change (2 ^ 4) with 16 in Hjoin. rewrite Hjoin. lia.
Qed.

Lemma EncodeToString_length src :
  String.length (EncodeToString src) = (2 * length src)%nat.
Proof. induction src as [| v r IH]; cbn [EncodeToString String.length length]; lia. Qed.

Lemma decode_pairs_EncodeToString src :
  Forall (fun b => 0 <= b < 256) src -> decode_pairs (EncodeToString src) = inr src.
Proof.
  induction 1 as [| b r Hb Hr IH]; [reflexivity |].
  cbn [EncodeToString decode_pairs].
  assert (Hhi : 0 <= Z.shiftr b 4 < 16).
  { rewrite Z.shiftr_div_pow2 by lia. change (2 ^ 4) with 16.
    split; [apply Z.div_pos; lia | apply Z.div_lt_upper_bound; lia]. }
  assert (Hlo : 0 <= Z.land b 15 < 16) by (rewrite land_15; apply Z.mod_pos_bound; lia).
  rewrite (fromHexChar_hexchar _ Hhi), (fromHexChar_hexchar _ Hlo), IH.
  rewrite nibbles_join by exact Hb. reflexivity.
Qed.

(** [hex.DecodeString] inverts [hex.EncodeToString]. *)
Lemma DecodeString_EncodeToString src :
  Forall (fun b => 0 <= b < 256) src -> DecodeString (EncodeToString src) = inr src.
Proof.
  intros Hsrc. unfold DecodeString. rewrite EncodeToString_length.
  rewrite Nat.odd_mul. cbn [Nat.odd andb]. simpl.
  apply decode_pairs_EncodeToString. exact Hsrc.
Qed.

(** The hex text of a non-empty byte string is not the placeholder. *)
Lemma EncodeToString_not_dash src : (1 <= length src)%nat -> EncodeToString src <> "-".
Proof. destruct src as [| v r]; cbn [length EncodeToString]; [lia | discriminate]. Qed.

End HexRoundTrip.

Section Decimal.

Lemma digit_byte d : 0 <= d <= 9 -> byte_of_ascii (ascii_of_byte (48 + d)) = 48 + d.
Proof. intros Hd. apply byte_of_ascii_of_byte. lia. Qed.

Lemma ParseUint_loop_digit d r n maxVal :
  0 <= d <= 9 -> 0 <= n -> n * 10 + d <= maxVal -> maxVal <= maxUint64 ->
  ParseUint_loop (String (ascii_of_byte (48 + d)) r) n (maxUint64 / 10 + 1) maxVal
  = ParseUint_loop r (n * 10 + d) (maxUint64 / 10 + 1) maxVal.
Proof.
  intros Hd Hn Hfit Hmax. cbn [ParseUint_loop]. rewrite digit_byte by exact Hd.
  unfold maxUint64 in *. change (2 ^ 64) with 18446744073709551616 in *.
  change ((18446744073709551616 - 1) / 10 + 1) with 1844674407370955162.
  replace ((48 <=? 48 + d) && (48 + d <=? 57)) with true
    by (symmetry; apply andb_true_iff; split; apply Z.leb_le; lia).
  cbv zeta.
  replace (1844674407370955162 <=? n) with false by (symmetry; apply Z.leb_gt; lia).
  rewrite (Z.mod_small (n * 10)) by lia.
  replace (48 + d - 48) with d by lia.
  rewrite (Z.mod_small (n * 10 + d)) by lia.
  replace ((n * 10 + d <? n * 10) || (maxVal <? n * 10 + d)) with false; [reflexivity |].
  symmetry. apply orb_false_iff. split; apply Z.ltb_ge; lia.
Qed.

(** The decimal digits that [formatBits] writes are read back by the
    digit loop of [ParseUint]. *)
Lemma formatBits_loop_parse maxVal room :
  forall u acc,
    (1 <= room)%nat -> 0 <= u <= maxVal -> maxVal <= maxUint64 ->
    u < 10 ^ Z.of_nat room ->
    exists s,
      formatBits_loop room u acc = Some s /\
      ParseUint_loop s 0 (maxUint64 / 10 + 1) maxVal
      = ParseUint_loop acc u (maxUint64 / 10 + 1) maxVal /\
      exists d r, s = String (ascii_of_byte (48 + d)) r /\ 0 <= d <= 9.
Proof.
  induction room as [| room IH]; intros u acc Hroom Hu Hmax Hfit; [lia |].
  cbn [formatBits_loop]. destruct (10 <=? u) eqn:Hbig.
  - apply Z.leb_le in Hbig.
    pose proof (Z.div_mod u 10 ltac:(lia)) as Hdm.
    pose proof (Z.mod_pos_bound u 10 ltac:(lia)) as Hm.
    assert (Hroom' : (1 <= room)%nat).
    { destruct room; [| lia]. change (10 ^ Z.of_nat 1) with 10 in Hfit. lia. }
    assert (Hq : u / 10 < 10 ^ Z.of_nat room).
    { apply Z.div_lt_upper_bound; [lia |].
      replace (Z.of_nat (S room)) with (1 + Z.of_nat room) in Hfit by lia.
      rewrite Z.pow_add_r in Hfit by lia. exact Hfit. }
    replace (48 + u - u / 10 * 10) with (48 + u mod 10) by lia.
    destruct (IH (u / 10) (String (ascii_of_byte (48 + u mod 10)) acc)
                Hroom' ltac:(lia) Hmax Hq) as (s & Hs & Hparse & Hhead).
    exists s. split; [exact Hs |]. split; [| exact Hhead].
    rewrite Hparse. rewrite ParseUint_loop_digit by lia.
    f_equal. lia.
  - apply Z.leb_gt in Hbig. eexists. split; [reflexivity |]. split.
    + rewrite ParseUint_loop_digit by lia. f_equal.
    + exists u, acc. split; [reflexivity | lia].
Qed.

Lemma digit_not_sign d :
  0 <= d <= 9 ->
  Ascii.eqb (ascii_of_byte (48 + d)) "+" = false /\
  Ascii.eqb (ascii_of_byte (48 + d)) "-" = false.
Proof.
  intros Hd.
  assert (Hcases : d = 0 \/ d = 1 \/ d = 2 \/ d = 3 \/ d = 4 \/ d = 5 \/ d = 6 \/ d = 7 \/
                   d = 8 \/ d = 9) by lia.
  repeat (destruct Hcases as [-> | Hcases]; [split; reflexivity |]).
  subst d. split; reflexivity.
Qed.

Lemma FormatUint_ParseUint u :
  0 <= u < 2 ^ 64 ->
  exists s,
    FormatUint u = Some s /\ ParseUint s 64 = (u, None) /\
    exists d r, s = String (ascii_of_byte (48 + d)) r /\ 0 <= d <= 9.
Proof.
  intros Hu. unfold FormatUint.
  destruct (formatBits_loop_parse (2 ^ 64 - 1) 65 u "" ltac:(lia) ltac:(lia)
              ltac:(unfold maxUint64; lia)
              ltac:(apply (Z.lt_le_trans _ (2 ^ 64)); [lia | vm_compute; discriminate]))
    as (s & Hs & Hparse & d & r & -> & Hd).
  exists (String (ascii_of_byte (48 + d)) r). split; [exact Hs |]. split.
  - unfold ParseUint. exact Hparse.
  - exists d, r. split; [reflexivity | exact Hd].
Qed.

(** [ParseInt] reads back what [FormatInt] prints. *)
Lemma FormatInt_ParseInt n :
  - 2 ^ 63 <= n < 2 ^ 63 ->
  exists s, FormatInt n = Some s /\ ParseInt s 64 = (n, None) /\ s <> "-".
Proof.
  intros Hn. change (2 ^ 63) with 9223372036854775808 in Hn.
  unfold FormatInt. destruct (n <? 0) eqn:Hneg.
  - apply Z.ltb_lt in Hneg.
    assert (Hm : (- n) mod 2 ^ 64 = - n)
      by (apply Z.mod_small; change (2 ^ 64) with 18446744073709551616; lia).
    rewrite Hm.
    destruct (formatBits_loop_parse (2 ^ 64 - 1) 64 (- n) "" ltac:(lia)
                ltac:(change (2 ^ 64) with 18446744073709551616; lia)
                ltac:(unfold maxUint64; lia)
                ltac:(apply (Z.lt_le_trans _ (2 ^ 64));
                      [change (2 ^ 64) with 18446744073709551616; lia
                      | vm_compute; discriminate]))
      as (s & Hs & Hparse & d & r & -> & Hd).
    rewrite Hs. eexists. split; [reflexivity |]. split; [| discriminate].
    cbn [ParseInt]. change (Ascii.eqb "-" "+") with false.
    change (Ascii.eqb "-" "-") with true. cbv iota.
    unfold ParseUint. rewrite Hparse.
    cbn [ParseUint_loop]. cbv iota zeta. cbn [negb andb].
    change (2 ^ (64 - 1)) with 9223372036854775808.
    replace (9223372036854775808 <? - n) with false by (symmetry; apply Z.ltb_ge; lia).
    f_equal. lia.
  - apply Z.ltb_ge in Hneg.
    destruct (FormatUint_ParseUint n ltac:(change (2 ^ 64) with 18446744073709551616; lia))
      as (s & Hs & Hparse & d & r & -> & Hd).
    unfold FormatUint in Hs. rewrite Hs. eexists. split; [reflexivity |].
    destruct (digit_not_sign d Hd) as [Hplus Hminus]. split.
    + cbn [ParseInt]. rewrite Hplus, Hminus.
      rewrite Hparse. cbn [negb andb].
      change (2 ^ (64 - 1)) with 9223372036854775808.
      replace (9223372036854775808 <=? n) with false by (symmetry; apply Z.leb_gt; lia).
      reflexivity.
    + intros [= Hc _]. rewrite Hc in Hminus. discriminate Hminus.
Qed.

End Decimal.

Section Codec.

Ltac refute := let H := fresh in intros H; discriminate H.

Lemma ParseUint_loop_nonneg cutoff maxVal s :
  forall n r, 0 <= n -> ParseUint_loop s n cutoff maxVal = (r, None) -> 0 <= r.
Proof.
  induction s as [| c s IH]; intros n r Hn; cbn [ParseUint_loop].
  - intros [= <-]. exact Hn.
  - destruct ((48 <=? byte_of_ascii c) && (byte_of_ascii c <=? 57)); [| refute].
    cbv zeta. destruct (cutoff <=? n); [refute |].
    destruct (_ || _); [refute |].
    apply IH. apply Z.mod_pos_bound. lia.
Qed.

Lemma ParseUint_loop_ErrRange cutoff maxVal s :
  forall n r, ParseUint_loop s n cutoff maxVal = (r, Some ErrRange) -> r = maxUint64.
Proof.
  induction s as [| c s IH]; intros n r; cbn [ParseUint_loop]; [refute |].
  destruct ((48 <=? byte_of_ascii c) && (byte_of_ascii c <=? 57)); [| refute].
  cbv zeta. destruct (cutoff <=? n); [intros [= <-]; reflexivity |].
  destruct (_ || _); [intros [= <-]; reflexivity |]. apply IH.
Qed.

(** A text that [ParseInt] accepts denotes an [int64]. *)
Lemma ParseInt_range s n : ParseInt s 64 = (n, None) -> - 2 ^ 63 <= n < 2 ^ 63.
Proof.
  unfold ParseInt. destruct s as [| c r]; [refute |].
  change (2 ^ (64 - 1)) with (2 ^ 63).
  set (signed_rest := if Ascii.eqb c "+" then (false, r)
                      else if Ascii.eqb c "-" then (true, r) else (false, String c r)).
  destruct signed_rest as [neg s'].
  destruct (ParseUint s' 64) as [un [[|] |]] eqn:Hun; [refute | |].
  - assert (Hmax : un = maxUint64).
    { unfold ParseUint in Hun. destruct s' as [| c' r']; [discriminate Hun |].
      eapply ParseUint_loop_ErrRange. exact Hun. }
    subst un. destruct neg; intros H; discriminate H.
  - assert (Hnn : 0 <= un).
    { unfold ParseUint in Hun. destruct s' as [| c' r']; [discriminate Hun |].
      eapply ParseUint_loop_nonneg; [| exact Hun]. lia. }
    destruct neg; cbn [negb andb].
    + destruct (2 ^ 63 <? un) eqn:Hc; [refute |].
      apply Z.ltb_ge in Hc. intros [= <-]. lia.
    + destruct (2 ^ 63 <=? un) eqn:Hc; [refute |].
      apply Z.leb_gt in Hc. intros [= <-]. lia.
Qed.

Lemma ParseInt_not_dash s n : ParseInt s 64 = (n, None) -> s <> "-".
Proof. intros Hs ->. discriminate Hs. Qed.

(** The [uint64] that [dovarint_to] hands to [PutUvarint]. *)
Lemma varint_word_range signed n :
  - 2 ^ 63 <= n < 2 ^ 63 -> 0 <= varint_word signed n < 2 ^ 64.
Proof.
  intros Hn. unfold varint_word. destruct signed.
  - apply (zigzag_range n Hn).
  - apply Z.mod_pos_bound. lia.
Qed.

(** [dovarint_to] on a text that parses: no panic, one line of hex. *)
Lemma dovarint_to_parsed val signed n :
  ParseInt val 64 = (n, None) ->
  exists bs,
    (1 <= length bs)%nat /\ Forall (fun b => 0 <= b < 256) bs /\
    Uvarint bs = (varint_word signed n, Z.of_nat (length bs)) /\
    forall w, dovarint_to val signed w = Done tt (put (EncodeToString bs +:+ nl) w).
Proof.
  intros Hparse. pose proof (ParseInt_range _ _ Hparse) as Hn.
  destruct (PutUvarint_Uvarint _ (varint_word_range signed n Hn))
    as (buf & k & Hput & Hk & Hlen & Hrange & Hdec).
  exists (take k buf). rewrite Hlen. repeat split; try assumption.
  intros w. unfold dovarint_to. rewrite Hparse. unfold bind, when.
  rewrite bool_decide_false by (intros H; apply H; reflexivity).
  cbn [ret].
  assert (Hcall : (if signed then PutVarint (repeat 0 10) n
                   else PutUvarint (repeat 0 10) (n mod 2 ^ 64)) = Some (buf, k)).
  { destruct signed; exact Hput. }
  rewrite Hcall. reflexivity.
Qed.

(** [dovarint_from] on the hex text of an encoding. *)
Lemma dovarint_from_encoded bs signed ux w :
  (1 <= length bs)%nat -> Forall (fun b => 0 <= b < 256) bs ->
  Uvarint bs = (ux, Z.of_nat (length bs)) ->
  dovarint_from (EncodeToString bs) signed w
  = if signed
    then Println_int64
           (if negb (Z.land ux 1 =? 0) then Z.lnot (Z.shiftr ux 1) else Z.shiftr ux 1) w
    else Println_uint64 ux w.
Proof.
  intros Hlen Hrange Hdec. unfold dovarint_from, bind.
  rewrite (mustDecodeHex_ok _ bs) by (apply DecodeString_EncodeToString; exact Hrange).
  assert (Hpos : (Z.of_nat (length bs) <=? 0) = false) by (apply Z.leb_gt; lia).
  destruct signed.
  - unfold Varint. rewrite Hdec. rewrite Hpos. reflexivity.
  - rewrite Hdec. rewrite Hpos. reflexivity.
Qed.

End Codec.

(** ** The varint codec *)

Lemma Println_int64_run n s w :
  FormatInt n = Some s -> Println_int64 n w = Done tt (put (s +:+ nl) w).
Proof. intros Hs. unfold Println_int64, bind. rewrite Hs. reflexivity. Qed.

Lemma Println_uint64_run n s w :
  FormatUint n = Some s -> Println_uint64 n w = Done tt (put (s +:+ nl) w).
Proof. intros Hs. unfold Println_uint64, bind. rewrite Hs. reflexivity. Qed.

(** C1 (amended): the round trip holds for every [int64] under
    [varint], and for every integer from 0 to 2^63 - 1 under [uvarint]. *)
Theorem varint_round_trip (signed : bool) (n : Z) :
  (if signed then - 2 ^ 63 else 0) <= n < 2 ^ 63 ->
  round_trips signed n.
Proof.
  intros Hrange.
  assert (Hn : - 2 ^ 63 <= n < 2 ^ 63) by (destruct signed; lia).
  destruct (FormatInt_ParseInt n Hn) as (dec & Hdec & Hparse & Hdash).
  destruct (dovarint_to_parsed dec signed n Hparse) as (bs & Hlen & Hbytes & Hread & Hto).
  exists dec, (EncodeToString bs). split; [| split].
  - destruct signed; [exact Hdec |].
    unfold FormatInt in Hdec.
    replace (n <? 0) with false in Hdec by (symmetry; apply Z.ltb_ge; lia).
    exact Hdec.
  - intros rest w. rewrite (dovarint_flag_to _ _ _ _ Hdash). apply Hto.
  - intros rest w.
    rewrite (dovarint_flag_from _ _ _ _ (EncodeToString_not_dash _ Hlen)).
    rewrite (dovarint_from_encoded _ _ _ _ Hlen Hbytes Hread).
    destruct signed.
    + unfold varint_word. destruct (zigzag_range n Hn) as [-> _].
      rewrite (unzigzag n Hn). apply Println_int64_run. exact Hdec.
    + unfold varint_word.
      rewrite Z.mod_small by (change (2 ^ 63) with 9223372036854775808 in Hrange;
                              change (2 ^ 64) with 18446744073709551616; lia).
      apply Println_uint64_run. unfold FormatInt in Hdec.
      replace (n <? 0) with false in Hdec by (symmetry; apply Z.ltb_ge; lia).
      exact Hdec.
Qed.

Lemma varint_round_trip_witness : round_trips true (- 300) /\ round_trips false 300.
Proof.
  split.
  - apply (varint_round_trip true (- 300)). simpl. lia.
  - apply (varint_round_trip false 300). simpl. lia.
Defined.

(** C1, as stated, fails: 2^63 is an unsigned 64-bit integer, and
    [uvarint -to] refuses its decimal text. *)
Lemma unsigned_text_above_int64_is_refused :
  0 <= 2 ^ 63 < 2 ^ 64 /\
  FormatUint (2 ^ 63) = Some "9223372036854775808" /\
  dovarint ["-to"; "9223372036854775808"] false quiet
  = Exited 1 (put ("could not parse base 10 int" +:+ nl) quiet) /\
  ~ round_trips false (2 ^ 63).
Proof.
  split; [lia |]. split; [vm_compute; reflexivity |]. split; [vm_compute; reflexivity |].
  intros (dec & h & Hdec & Hto & _).
  vm_compute in Hdec. injection Hdec as <-.
  specialize (Hto [] quiet). vm_compute in Hto. discriminate Hto.
Qed.

(** C5: [uvarint 300] prints [ac02] and [uvarint 0xac02] prints [300]. *)
Theorem uvarint_300 w :
  uvarint ["300"] w = Done tt (put ("ac02" +:+ nl) w) /\
  uvarint ["0xac02"] w = Done tt (put ("300" +:+ nl) w).
Proof. split; reflexivity. Qed.

(** C3: without a flag the mode follows the shape of the value: the
    prefix [0x] is stripped and the rest decoded from hex; otherwise a
    text that [ParseInt] accepts is encoded, to one line of hex; any
    other text is decoded from hex, and a text that is not hex ends the
    process with status 1. *)
Theorem mode_is_inferred_from_value args signed w val used w' :
  no_flag args ->
  input args 0 false w = Done (val, used) w' ->
  (HasPrefix val "0x" = true ->
   dovarint args signed w = dovarint_from (TrimPrefix val "0x") signed w') /\
  (HasPrefix val "0x" = false ->
   forall n, ParseInt val 64 = (n, None) ->
     dovarint args signed w = dovarint_to val signed w' /\
     exists bs,
       Uvarint bs = (varint_word signed n, Z.of_nat (length bs)) /\
       dovarint args signed w = Done tt (put (EncodeToString bs +:+ nl) w')) /\
  (HasPrefix val "0x" = false ->
   forall n e, ParseInt val 64 = (n, Some e) ->
     dovarint args signed w = dovarint_from val signed w') /\
  (forall v e, DecodeString v = inl e ->
     dovarint_from v signed w'
     = Exited 1 (put ("error decoding hex: " +:+ Hex.Error e +:+ nl) w')).
Proof.
  intros Hnf Hin. pose proof (dovarint_inferred _ signed _ _ _ _ Hnf Hin) as Hrun.
  split; [| split; [| split]].
  - intros Hpre. rewrite Hrun, Hpre. reflexivity.
  - intros Hpre n Hparse. rewrite Hrun, Hpre, Hparse. split; [reflexivity |].
    destruct (dovarint_to_parsed val signed n Hparse) as (bs & _ & _ & Hread & Hto).
    exists bs. split; [exact Hread | apply Hto].
  - intros Hpre n e Hparse. rewrite Hrun, Hpre, Hparse. reflexivity.
  - intros v e Hv. apply dovarint_from_bad_hex. exact Hv.
Qed.

(** ** The key-consuming commands *)

Section Keys.

Context (E : Collaborators).

Lemma pub_raw args w inp used w' :
  input args 0 false w = Done (inp, used) w' ->
  XPrvFromString E inp = None ->
  pub E args w
  = (b <- mustDecodeHex inp ;;
     match PrvFromBytes E b with
     | Some prv => Println (EncodeToString (PubBytes E (PrivateKey_Public E prv)))
     | None => errorf "could not parse key"
     end) w'.
Proof. intros Hin Hx. unfold pub. unfold bind at 1. rewrite Hin, Hx. reflexivity. Qed.

Lemma sign_raw args w k u1 w1 m u2 w2 :
  input args 0 false w = Done (k, u1) w1 ->
  input args 1 u1 w1 = Done (m, u2) w2 ->
  XPrvFromString E k = None ->
  forall e b,
    (DecodeString k = inl e ->
     sign E args w = Exited 1 (put ("error decoding hex: " +:+ Hex.Error e +:+ nl) w2)) /\
    (DecodeString k = inr b -> PrvFromBytes E b = None ->
     sign E args w = Exited 1 (put ("could not parse key" +:+ nl) w2)).
Proof.
  intros Hk Hm Hx e b.
  split; [intros He | intros Hb Hraw];
    unfold sign; unfold bind at 1; rewrite Hk; unfold bind at 1; rewrite Hm, Hx;
    unfold bind.
  - rewrite (mustDecodeHex_error _ _ _ He). reflexivity.
  - rewrite (mustDecodeHex_ok _ _ _ Hb). rewrite Hraw. reflexivity.
Qed.

Lemma verify_inputs args w k u1 w1 m u2 w2 s u3 w3 :
  input args 0 false w = Done (k, u1) w1 ->
  input args 1 u1 w1 = Done (m, u2) w2 ->
  input args 2 u2 w2 = Done (s, u3) w3 ->
  verify E args w
  = ('(xpub, pub) <-
       match XPubFromString E k with
       | Some xpub => ret (Some xpub, None)
       | None =>
           b <- mustDecodeHex k ;;
           let pub := PubFromBytes E b in
           when (bool_decide (pub = None)) (errorf "could not parse key") ;;
           ret (None, pub)
       end ;;
     msg <- mustDecodeHex m ;;
     sig <- mustDecodeHex s ;;
     verified <-
       match xpub with
       | Some xpub => ret (XPub_Verify E xpub msg sig)
       | None => pub <- orPanic pub ;; ret (ed25519_Verify E pub msg sig)
       end ;;
     if verified : bool then Println "verified" else Println "not verified") w3.
Proof.
  intros Hk Hm Hs. unfold verify. unfold bind at 1. rewrite Hk.
  unfold bind at 1. rewrite Hm. unfold bind at 1. rewrite Hs. reflexivity.
Qed.

Lemma verify_raw args w k u1 w1 m u2 w2 s u3 w3 :
  input args 0 false w = Done (k, u1) w1 ->
  input args 1 u1 w1 = Done (m, u2) w2 ->
  input args 2 u2 w2 = Done (s, u3) w3 ->
  XPubFromString E k = None ->
  forall e b,
    (DecodeString k = inl e ->
     verify E args w = Exited 1 (put ("error decoding hex: " +:+ Hex.Error e +:+ nl) w3)) /\
    (DecodeString k = inr b -> PubFromBytes E b = None ->
     verify E args w = Exited 1 (put ("could not parse key" +:+ nl) w3)).
Proof.
  intros Hk Hm Hs Hx e b. rewrite (verify_inputs _ _ _ _ _ _ _ _ _ _ _ Hk Hm Hs).
  rewrite Hx. split.
  - intros He. unfold bind. rewrite (mustDecodeHex_error _ _ _ He). reflexivity.
  - intros Hb Hraw. unfold bind. rewrite (mustDecodeHex_ok _ _ _ Hb). rewrite Hraw.
    reflexivity.
Qed.

End Keys.

(** C2 (amended): a key text that is no extended key ends [pub], [sign]
    and [verify] with status 1; the line printed is [could not parse
    key] when the text is hex whose bytes are no raw key, and the hex
    decoding error when the text is not hex. *)
Theorem unparseable_key_is_fatal (E : Collaborators) :
  (forall args w inp used w',
      input args 0 false w = Done (inp, used) w' ->
      XPrvFromString E inp = None ->
      forall e b,
        (DecodeString inp = inl e ->
         pub E args w
         = Exited 1 (put ("error decoding hex: " +:+ Hex.Error e +:+ nl) w')) /\
        (DecodeString inp = inr b -> PrvFromBytes E b = None ->
         pub E args w = Exited 1 (put ("could not parse key" +:+ nl) w'))) /\
  (forall args w k u1 w1 m u2 w2,
      input args 0 false w = Done (k, u1) w1 ->
      input args 1 u1 w1 = Done (m, u2) w2 ->
      XPrvFromString E k = None ->
      forall e b,
        (DecodeString k = inl e ->
         sign E args w
         = Exited 1 (put ("error decoding hex: " +:+ Hex.Error e +:+ nl) w2)) /\
        (DecodeString k = inr b -> PrvFromBytes E b = None ->
         sign E args w = Exited 1 (put ("could not parse key" +:+ nl) w2))) /\
  (forall args w k u1 w1 m u2 w2 s u3 w3,
      input args 0 false w = Done (k, u1) w1 ->
      input args 1 u1 w1 = Done (m, u2) w2 ->
      input args 2 u2 w2 = Done (s, u3) w3 ->
      XPubFromString E k = None ->
      forall e b,
        (DecodeString k = inl e ->
         verify E args w
         = Exited 1 (put ("error decoding hex: " +:+ Hex.Error e +:+ nl) w3)) /\
        (DecodeString k = inr b -> PubFromBytes E b = None ->
         verify E args w = Exited 1 (put ("could not parse key" +:+ nl) w3))).
Proof.
  split; [| split].
  - intros args w inp used w' Hin Hx e b.
    rewrite (pub_raw E _ _ _ _ _ Hin Hx). split.
    + intros He. unfold bind. rewrite (mustDecodeHex_error _ _ _ He). reflexivity.
    + intros Hb Hraw. unfold bind. rewrite (mustDecodeHex_ok _ _ _ Hb). rewrite Hraw.
      reflexivity.
  - intros. eapply sign_raw; eassumption.
  - intros. eapply verify_raw; eassumption.
Qed.

Lemma unparseable_key_is_fatal_witness :
  pub sample ["00"] quiet = Exited 1 (put ("could not parse key" +:+ nl) quiet).
Proof.
  destruct (unparseable_key_is_fatal sample) as (Hpub & _).
  apply (Hpub ["00"] quiet "00" false quiet eq_refl eq_refl ErrLength [0]);
    reflexivity.
Defined.

(** C2, as stated, fails: the text [zz] is no key under any
    interpretation, and [pub] reports the hex decoding error, not
    [could not parse key]. *)
Lemma non_hex_key_is_a_hex_error :
  no_private_key sample "zz" /\
  pub sample ["zz"] quiet
  = Exited 1 (put ("error decoding hex: encoding/hex: invalid byte: U+007A 'z'" +:+ nl) quiet) /\
  pub sample ["zz"] quiet <> Exited 1 (put ("could not parse key" +:+ nl) quiet).
Proof.
  split; [| split].
  - split; [reflexivity |]. intros b Hb. discriminate Hb.
  - reflexivity.
  - intros H. discriminate H.
Qed.

(** C7: once the key, the message and the signature are accepted,
    [verify] returns normally; it prints [verified] when the signature
    check succeeds and [not verified] when it fails. *)
Theorem verification_failure_is_a_result
    (E : Collaborators) args w k u1 w1 m u2 w2 s u3 w3 msg sig :
  input args 0 false w = Done (k, u1) w1 ->
  input args 1 u1 w1 = Done (m, u2) w2 ->
  input args 2 u2 w2 = Done (s, u3) w3 ->
  DecodeString m = inr msg ->
  DecodeString s = inr sig ->
  (forall xpub,
      XPubFromString E k = Some xpub ->
      verify E args w
      = Done tt (put ((if XPub_Verify E xpub msg sig then "verified"
                       else "not verified") +:+ nl) w3)) /\
  (forall b pub,
      XPubFromString E k = None ->
      DecodeString k = inr b ->
      PubFromBytes E b = Some pub ->
      verify E args w
      = Done tt (put ((if ed25519_Verify E pub msg sig then "verified"
                       else "not verified") +:+ nl) w3)).
Proof.
  intros Hk Hm Hs Hmsg Hsig.
  rewrite (verify_inputs E _ _ _ _ _ _ _ _ _ _ _ Hk Hm Hs). split.
  - intros xpub Hx. rewrite Hx. unfold bind. cbn [ret].
    rewrite (mustDecodeHex_ok _ _ _ Hmsg), (mustDecodeHex_ok _ _ _ Hsig).
    destruct (XPub_Verify E xpub msg sig); reflexivity.
  - intros b pub Hx Hb Hpub. rewrite Hx. unfold bind.
    rewrite (mustDecodeHex_ok _ _ _ Hb). rewrite Hpub.
    rewrite bool_decide_false by discriminate. cbn [when ret].
    rewrite (mustDecodeHex_ok _ _ _ Hmsg), (mustDecodeHex_ok _ _ _ Hsig).
    cbn [orPanic ret].
    destruct (ed25519_Verify E pub msg sig); reflexivity.
Qed.

Lemma verification_failure_is_a_result_witness :
  verify sample [sample_pub; "01"; "ff"] quiet
  = Done tt (put ("not verified" +:+ nl) quiet) /\
  verify sample [sample_pub; "01"; sample_pub +:+ "01"] quiet
  = Done tt (put ("verified" +:+ nl) quiet).
Proof.
  split.
  - apply (proj2 (verification_failure_is_a_result sample [sample_pub; "01"; "ff"]
                    quiet sample_pub false quiet "01" false quiet "ff" false quiet
                    [1] [255] eq_refl eq_refl eq_refl eq_refl eq_refl)
             (repeat 0 32%nat) (repeat 0 32%nat) eq_refl eq_refl eq_refl).
  - apply (proj2 (verification_failure_is_a_result sample
                    [sample_pub; "01"; sample_pub +:+ "01"]
                    quiet sample_pub false quiet "01" false quiet (sample_pub +:+ "01")
                    false quiet [1] (repeat 0 32%nat ++ [1])
                    eq_refl eq_refl eq_refl eq_refl eq_refl)
             (repeat 0 32%nat) (repeat 0 32%nat) eq_refl eq_refl eq_refl).
Defined.

(** ** The decoding commands *)

(** C9: the registry holds [block], [blockheader] and [tx]; [main]
    dispatches each name to its function, which resolves one input,
    decodes it, and either prints the decoded structure or prints the
    decoding error and exits with status 1. *)
Theorem decoding_commands_are_registered (E : Collaborators) :
  (fn <$> subcommands !! "block" = Some fn_block /\
   fn <$> subcommands !! "blockheader" = Some fn_blockheader /\
   fn <$> subcommands !! "tx" = Some fn_tx) /\
  (forall prog args w,
      main E (prog :: "block" :: args) w = block E args w /\
      main E (prog :: "blockheader" :: args) w = blockheader E args w /\
      main E (prog :: "tx" :: args) w = tx E args w) /\
  (forall args w inp used w',
      input args 0 false w = Done (inp, used) w' ->
      block E args w
      = match Block_UnmarshalJSON E inp with
        | inr b => Done tt (put (spew_Block E b +:+ nl) w')
        | inl err => Exited 1 (put ("error unmarshaling block: " +:+ err +:+ nl) w')
        end /\
      blockheader E args w
      = match BlockHeader_UnmarshalJSON E inp with
        | inr b => Done tt (put (spew_BlockHeader E b +:+ nl) w')
        | inl err =>
            Exited 1 (put ("error unmarshaling blockheader: " +:+ err +:+ nl) w')
        end /\
      tx E args w
      = match TxData_UnmarshalText E inp with
        | inr b => Done tt (put (spew_TxData E b +:+ nl) w')
        | inl err => Exited 1 (put ("error unmarshaling tx: " +:+ err +:+ nl) w')
        end).
Proof.
  split; [| split].
  - repeat split; vm_compute; reflexivity.
  - intros prog args w.
    repeat split; rewrite main_dispatch; unfold bind;
      erewrite mustSubcommand_known by (vm_compute; reflexivity); reflexivity.
  - intros args w inp used w' Hin. repeat split.
    + unfold block, bind. rewrite Hin.
      destruct (Block_UnmarshalJSON E inp) as [err | b]; [| reflexivity].
      rewrite errorf_run, append_assoc. reflexivity.
    + unfold blockheader, bind. rewrite Hin.
      destruct (BlockHeader_UnmarshalJSON E inp) as [err | b]; [| reflexivity].
      rewrite errorf_run, append_assoc. reflexivity.
    + unfold tx, bind. rewrite Hin.
      destruct (TxData_UnmarshalText E inp) as [err | b]; [| reflexivity].
      rewrite errorf_run, append_assoc. reflexivity.
Qed.

Lemma decoding_commands_are_registered_witness :
  main sample ["multitool"; "block"; "{}"] quiet = Done tt (put ("{}" +:+ nl) quiet) /\
  main sample ["multitool"; "tx"; "07"] quiet
  = Exited 1 (put ("error unmarshaling tx: invalid character" +:+ nl) quiet).
Proof.
  destruct (decoding_commands_are_registered sample) as (_ & Hmain & Hrun).
  destruct (Hmain "multitool" ["{}"] quiet) as (Hblock & _ & _).
  destruct (Hmain "multitool" ["07"] quiet) as (_ & _ & Htx).
  split.
  - rewrite Hblock.
    apply (Hrun ["{}"] quiet "{}" false quiet eq_refl).
  - rewrite Htx.
    apply (Hrun ["07"] quiet "07" false quiet eq_refl).
Defined.

(** ** The theorems on concrete command lines *)

Lemma input_resolver_contract_witness :
  input ["k"; "-"] 0 false (piped "m") = Done ("k", false) (piped "m") /\
  input ["-"; "-"] 1 true quiet
  = Exited 1 (put ("can use stdin for only one arg" +:+ nl) quiet) /\
  input ["k"; "-"] 1 false (piped "m") = Done ("m", true) quiet /\
  input ["k"; "-"] 0 true quiet = Done ("k", true) quiet.
Proof.
  destruct input_resolver_contract as (Hliteral & Htwice & Honce).
  split; [| split; [| split]].
  - apply Hliteral; [reflexivity | discriminate].
  - apply (Htwice ["-"; "-"] 0%nat 1%nat (piped "m") "m" quiet true).
    + right. reflexivity.
    + right. reflexivity.
    + reflexivity.
  - apply (Honce ["k"; "-"] 1%nat (piped "m") "m" []).
    + right. reflexivity.
    + reflexivity.
  - apply (Honce ["k"; "-"] 1%nat (piped "m") "m" []).
    + right. reflexivity.
    + reflexivity.
    + reflexivity.
    + discriminate.
Defined.

Lemma mode_is_inferred_from_value_witness :
  dovarint ["300"] true quiet = dovarint_to "300" true quiet /\
  dovarint ["0x0a"] true quiet = dovarint_from "0a" true quiet /\
  dovarint ["beef"] true quiet = dovarint_from "beef" true quiet /\
  dovarint ["300z"] true quiet
  = Exited 1 (put ("error decoding hex: " +:+ Hex.Error (InvalidByteError 122) +:+ nl) quiet).
Proof.
  assert (Hnf : forall val, val <> "-from" -> val <> "-to" -> no_flag [val]).
  { intros val Hfrom Hto a rest [= <- <-]. split; assumption. }
  split; [| split; [| split]].
  - destruct (mode_is_inferred_from_value ["300"] true quiet "300" false quiet
                (Hnf "300" ltac:(discriminate) ltac:(discriminate)) eq_refl)
      as (_ & Hto & _ & _).
    apply (Hto eq_refl 300 eq_refl).
  - destruct (mode_is_inferred_from_value ["0x0a"] true quiet "0x0a" false quiet
                (Hnf "0x0a" ltac:(discriminate) ltac:(discriminate)) eq_refl)
      as (Hprefix & _ & _ & _).
    apply (Hprefix eq_refl).
  - destruct (mode_is_inferred_from_value ["beef"] true quiet "beef" false quiet
                (Hnf "beef" ltac:(discriminate) ltac:(discriminate)) eq_refl)
      as (_ & _ & Hfrom & _).
    apply (Hfrom eq_refl 0 ErrSyntax eq_refl).
  - destruct (mode_is_inferred_from_value ["300z"] true quiet "300z" false quiet
                (Hnf "300z" ltac:(discriminate) ltac:(discriminate)) eq_refl)
      as (_ & _ & Hfrom & Hbad).
    rewrite (Hfrom eq_refl 0 ErrSyntax eq_refl).
    apply Hbad. reflexivity.
Defined.

(** ** What [hex.DecodeString] accepts *)

Section HexAcceptance.

Lemma string_pair_ind (P : string -> Prop) :
  P "" -> (forall c, P (String c "")) ->
  (forall c1 c2 r, P r -> P (String c1 (String c2 r))) ->
  forall s, P s.
Proof.
  intros Hnil Hone Hpair.
  assert (Hboth : forall s, P s /\ forall c, P (String c s)).
  { induction s as [| c s [IHs IHc]]; split; auto. }
  intros s. apply Hboth.
Qed.

Lemma fromHexChar_range c a : fromHexChar c = Some a -> 0 <= a < 16.
Proof.
  unfold fromHexChar.
  set (b := byte_of_ascii c).
  destruct ((48 <=? b) && (b <=? 57)) eqn:H1;
    [| destruct ((97 <=? b) && (b <=? 102)) eqn:H2;
       [| destruct ((65 <=? b) && (b <=? 70)) eqn:H3]];
    intros H; try discriminate H; injection H as <-;
    match goal with H : _ && _ = true |- _ => apply andb_true_iff in H; destruct H end; lia.
Qed.

Lemma hex_byte_range a b :
  0 <= a < 16 -> 0 <= b < 16 -> 0 <= Z.lor (Z.shiftl a 4 mod 256) b < 256.
Proof.
  intros Ha Hb. rewrite Z.shiftl_mul_pow2 by lia. change (2 ^ 4) with 16.
  rewrite Z.mod_small by lia. rewrite Z.lor_comm.
  pose proof (lor_disjoint_add b a 4 ltac:(lia) ltac:(change (2 ^ 4) with 16; lia)) as Hj.
  change (2 ^ 4) with 16 in Hj. rewrite Hj. lia.
Qed.

Lemma decode_pairs_accepts s :
  Nat.even (String.length s) = true -> all_hex s = true ->
  exists bs,
    decode_pairs s = inr bs /\ (2 * length bs)%nat = String.length s /\
    Forall (fun b => 0 <= b < 256) bs.
Proof.
  induction s as [| c | c1 c2 r IH] using string_pair_ind.
  - intros _ _. exists []. repeat split. constructor.
  - intros Hev. discriminate Hev.
  - intros Hev Hhex. cbn [String.length] in Hev. cbn [all_hex] in Hhex.
    destruct (fromHexChar c1) as [a |] eqn:H1; [| discriminate Hhex].
    destruct (fromHexChar c2) as [b |] eqn:H2; [| discriminate Hhex].
    destruct (IH Hev Hhex) as (bs & Hbs & Hlen & Hrange).
    exists (Z.lor (Z.shiftl a 4 mod 256) b :: bs). cbn [decode_pairs].
    rewrite H1, H2, Hbs. split; [reflexivity |]. split.
    + cbn [length String.length]. lia.
    + constructor; [| exact Hrange].
      apply hex_byte_range; eapply fromHexChar_range; eassumption.
Qed.

Lemma decode_pairs_refuses s :
  all_hex s = false -> exists e, decode_pairs s = inl e.
Proof.
  induction s as [| c | c1 c2 r IH] using string_pair_ind.
  - intros H. discriminate H.
  - intros _. eexists. reflexivity.
  - cbn [all_hex decode_pairs].
    destruct (fromHexChar c1) as [a |]; [| intros _; eexists; reflexivity].
    destruct (fromHexChar c2) as [b |]; [| intros _; eexists; reflexivity].
    intros Hr. destruct (IH Hr) as (e & ->). eexists. reflexivity.
Qed.

Lemma even_odd_false n : Nat.even n = true -> Nat.odd n = false.
Proof. intros H. unfold Nat.odd. rewrite H. reflexivity. Qed.

Lemma even_false_odd n : Nat.even n = false -> Nat.odd n = true.
Proof. intros H. unfold Nat.odd. rewrite H. reflexivity. Qed.

(** [hex.DecodeString] succeeds exactly on the texts of even length
    made of hex digits. *)
Lemma DecodeString_accepts s :
  Nat.even (String.length s) && all_hex s = true ->
  exists bs,
    DecodeString s = inr bs /\ (2 * length bs)%nat = String.length s /\
    Forall (fun b => 0 <= b < 256) bs.
Proof.
  intros [Hev Hhex]%andb_true_iff. unfold DecodeString.
  rewrite (even_odd_false _ Hev). apply decode_pairs_accepts; assumption.
Qed.

Lemma DecodeString_refuses s :
  Nat.even (String.length s) && all_hex s = false ->
  exists e, DecodeString s = inl e.
Proof.
  intros [Hodd | Hhex]%andb_false_iff; unfold DecodeString.
  - rewrite (even_false_odd _ Hodd). eexists. reflexivity.
  - destruct (Nat.odd _); [eexists; reflexivity |].
    apply decode_pairs_refuses. exact Hhex.
Qed.

End HexAcceptance.

Section HexDenotation.

Lemma hex_digit_char c :
  mem_char c hex_digits = true ->
  exists v, fromHexChar c = Some v /\ hexchar v = lower c.
Proof.
  destruct c as [[] [] [] [] [] [] [] []]; intros H;
    first [discriminate H | eexists; split; reflexivity].
Qed.

Lemma other_char c : mem_char c hex_digits = false -> fromHexChar c = None.
Proof.
  destruct c as [[] [] [] [] [] [] [] []]; intros H;
    first [discriminate H | reflexivity].
Qed.

Lemma all_hex_only_chars s : all_hex s = only_chars hex_digits s.
Proof.
  induction s as [| c s IH]; [reflexivity |]. cbn [all_hex only_chars].
  destruct (mem_char c hex_digits) eqn:Hc.
  - destruct (hex_digit_char c Hc) as (v & -> & _). exact IH.
  - rewrite (other_char c Hc). reflexivity.
Qed.

Lemma hex_byte_nibbles a b :
  0 <= a < 16 -> 0 <= b < 16 ->
  let v := Z.lor (Z.shiftl a 4 mod 256) b in
  Z.shiftr v 4 = a /\ Z.land v 15 = b.
Proof.
  intros Ha Hb. cbv zeta. rewrite Z.shiftl_mul_pow2 by lia. change (2 ^ 4) with 16.
  rewrite Z.mod_small by lia. rewrite Z.lor_comm.
  pose proof (lor_disjoint_add b a 4 ltac:(lia) ltac:(change (2 ^ 4) with 16; lia)) as Hj.
  change (2 ^ 4) with 16 in Hj. rewrite Hj.
  rewrite Z.shiftr_div_pow2, land_15 by lia. change (2 ^ 4) with 16. split.
  - rewrite Z.div_add by lia. rewrite Z.div_small by lia. reflexivity.
  - rewrite Z.mod_add by lia. apply Z.mod_small. lia.
Qed.

(** The bytes decoded from a hex text are the bytes whose hex is that
    text in lower case. *)
Lemma decode_pairs_denotes s :
  forall bs,
    only_chars hex_digits s = true -> decode_pairs s = inr bs ->
    EncodeToString bs = ToLower s.
Proof.
  induction s as [| c | c1 c2 r IH] using string_pair_ind; intros bs.
  - intros _ [= <-]. reflexivity.
  - intros _ H. discriminate H.
  - cbn [only_chars decode_pairs].
    intros [H1 [H2 Hr]%andb_true_iff]%andb_true_iff.
    destruct (hex_digit_char c1 H1) as (a & Ha & Hca).
    destruct (hex_digit_char c2 H2) as (b & Hb & Hcb).
    rewrite Ha, Hb. destruct (decode_pairs r) as [e | tl] eqn:Htl;
      [intros H; discriminate H |].
    intros [= <-]. cbn [EncodeToString ToLower].
    destruct (hex_byte_nibbles a b (fromHexChar_range _ _ Ha) (fromHexChar_range _ _ Hb))
      as [-> ->].
    rewrite Hca, Hcb, (IH tl Hr eq_refl). reflexivity.
Qed.

End HexDenotation.

(** X1: [mustDecodeHex] accepts exactly the hex texts, the texts of even
    length over the characters [0-9], [a-f] and [A-F]: it prints
    nothing and returns the bytes that the text denotes, those whose
    hex encoding is the text in lower case, two characters a byte; on
    every other text it prints the hex error and exits with status 1. *)
Theorem mustDecodeHex_accepts_exactly_hex s w :
  (is_hex_text s = true ->
   exists bs,
     mustDecodeHex s w = Done bs w /\ EncodeToString bs = ToLower s /\
     (2 * length bs)%nat = String.length s /\
     Forall (fun b => 0 <= b < 256) bs) /\
  (is_hex_text s = false ->
   exists e,
     mustDecodeHex s w
     = Exited 1 (put ("error decoding hex: " +:+ Hex.Error e +:+ nl) w)).
Proof.
  unfold is_hex_text. rewrite <- all_hex_only_chars. split.
  - intros Hok. destruct (DecodeString_accepts s Hok) as (bs & Hbs & Hlen & Hrange).
    exists bs. split; [apply mustDecodeHex_ok; exact Hbs |].
    split; [| split; assumption].
    apply andb_true_iff in Hok as [Hev Hhex].
    apply decode_pairs_denotes; [rewrite <- all_hex_only_chars; exact Hhex |].
    unfold DecodeString in Hbs. rewrite (even_odd_false _ Hev) in Hbs. exact Hbs.
  - intros Hbad. destruct (DecodeString_refuses s Hbad) as (e & He).
    exists e. apply mustDecodeHex_error. exact He.
Qed.

Lemma mustDecodeHex_accepts_exactly_hex_witness :
  (exists bs, mustDecodeHex "AC02" quiet = Done bs quiet /\
              EncodeToString bs = "ac02" /\
              (2 * length bs)%nat = 4%nat /\ Forall (fun b => 0 <= b < 256) bs) /\
  (exists e, mustDecodeHex "ac0g" quiet
             = Exited 1 (put ("error decoding hex: " +:+ Hex.Error e +:+ nl) quiet)).
Proof.
  split.
  - apply (mustDecodeHex_accepts_exactly_hex "AC02" quiet). reflexivity.
  - apply (mustDecodeHex_accepts_exactly_hex "ac0g" quiet). reflexivity.
Defined.

(** ** The [hex] command *)

Section HexCmd.

Lemma ascii_of_byte_of_ascii c : ascii_of_byte (byte_of_ascii c) = c.
Proof.
  unfold ascii_of_byte, byte_of_ascii.
  pose proof (N_ascii_bounded c) as Hc.
  rewrite Z.mod_small by lia. rewrite N2Z.id. apply ascii_N_embedding.
Qed.

Lemma string_of_bytes_of_string s : string_of_bytes (bytes_of_string s) = s.
Proof.
  induction s as [| c s IH]; [reflexivity |].
  cbn [bytes_of_string string_of_bytes]. rewrite ascii_of_byte_of_ascii, IH. reflexivity.
Qed.

Lemma bytes_of_string_range s : Forall (fun b => 0 <= b < 256) (bytes_of_string s).
Proof.
  induction s as [| c s IH]; constructor; [| exact IH].
  unfold byte_of_ascii. pose proof (N_ascii_bounded c). lia.
Qed.

Lemma EncodeToString_never_dash bs : EncodeToString bs <> "-".
Proof. destruct bs as [| b r]; cbn [EncodeToString]; intros H; discriminate H. Qed.

Lemma hexCmd_decodes inp rest b w :
  inp <> "-" -> DecodeString inp = inr b ->
  hexCmd (inp :: rest) w = Done tt (put (string_of_bytes b +:+ nl) w).
Proof.
  intros Hdash Hb. unfold hexCmd, bind.
  rewrite (input_literal (inp :: rest) 0 false w inp eq_refl Hdash).
  rewrite Hb. reflexivity.
Qed.

Lemma hexCmd_encodes inp rest e w :
  inp <> "-" -> DecodeString inp = inl e ->
  hexCmd (inp :: rest) w
  = Done tt (put (EncodeToString (bytes_of_string inp) +:+ nl) w).
Proof.
  intros Hdash He. unfold hexCmd, bind.
  rewrite (input_literal (inp :: rest) 0 false w inp eq_refl Hdash).
  rewrite He. reflexivity.
Qed.

End HexCmd.

(** X2: [hex] applied to the hex of the bytes of any text [s] prints [s];
    and when [s] itself is not hex, [hex] applied to [s] prints that
    hex, so the two directions are inverse on such a text. *)
Theorem hexCmd_round_trip s rest w :
  let h := EncodeToString (bytes_of_string s) in
  hexCmd (h :: rest) w = Done tt (put (s +:+ nl) w) /\
  (forall e, s <> "-" -> DecodeString s = inl e ->
             hexCmd (s :: rest) w = Done tt (put (h +:+ nl) w)).
Proof.
  cbv zeta. split.
  - rewrite (hexCmd_decodes _ rest (bytes_of_string s) w).
    + rewrite string_of_bytes_of_string. reflexivity.
    + apply EncodeToString_never_dash.
    + apply DecodeString_EncodeToString. apply bytes_of_string_range.
  - intros e Hdash He. eapply hexCmd_encodes; eassumption.
Qed.

Lemma hexCmd_round_trip_witness :
  hexCmd ["6b657920"] quiet = Done tt (put ("key " +:+ nl) quiet) /\
  hexCmd ["key "] quiet = Done tt (put ("6b657920" +:+ nl) quiet).
Proof.
  destruct (hexCmd_round_trip "key " [] quiet) as [Hdec Henc]. split.
  - exact Hdec.
  - apply (Henc (InvalidByteError 107)); [discriminate | reflexivity].
Defined.

(** ** Values that end in a line feed *)

Section LineFeed.

Lemma append_cons c r t : String c r +:+ t = String c (r +:+ t).
Proof. reflexivity. Qed.

Lemma all_hex_line s : all_hex (s +:+ nl) = false.
Proof.
  induction s as [| c s IH]; [reflexivity |].
  rewrite append_cons. cbn [all_hex]. rewrite IH. destruct (fromHexChar c); reflexivity.
Qed.

Lemma ParseUint_loop_line cutoff maxVal s :
  forall n, exists v e, ParseUint_loop (s +:+ nl) n cutoff maxVal = (v, Some e).
Proof.
  induction s as [| c s IH]; intros n.
  - change ("" +:+ nl) with nl. cbn. eauto.
  - rewrite append_cons. cbn [ParseUint_loop].
    destruct ((48 <=? byte_of_ascii c) && (byte_of_ascii c <=? 57)); [| eauto].
    cbv zeta. destruct (cutoff <=? n); [eauto |].
    destruct (_ || _); [eauto |]. apply IH.
Qed.

Lemma ParseUint_line s :
  exists v e, ParseUint (s +:+ nl) 64 = (v, Some e) /\ (e = ErrRange -> v = maxUint64).
Proof.
  assert (Hloop : forall t, exists v e,
             ParseUint_loop (t +:+ nl) 0 (maxUint64 / 10 + 1) (2 ^ 64 - 1) = (v, Some e) /\
             (e = ErrRange -> v = maxUint64)).
  { intros t. destruct (ParseUint_loop_line (maxUint64 / 10 + 1) (2 ^ 64 - 1) t 0)
      as (v & e & Hv).
    exists v, e. split; [exact Hv |]. intros ->.
    eapply ParseUint_loop_ErrRange. exact Hv. }
  unfold ParseUint. destruct s as [| c r]; [apply (Hloop "") |].
  rewrite append_cons. rewrite <- append_cons. apply Hloop.
Qed.

(** No text that ends in a line feed is a decimal integer. *)
Lemma ParseInt_line s : exists v e, ParseInt (s +:+ nl) 64 = (v, Some e).
Proof.
  assert (Hsigned : forall neg t, exists v e,
             match ParseUint (t +:+ nl) 64 with
             | (_, Some ErrSyntax) => (0, Some ErrSyntax)
             | (un, _) =>
                 let cutoff := 2 ^ (64 - 1) in
                 if negb neg && (cutoff <=? un) then (cutoff - 1, Some ErrRange)
                 else if neg && (cutoff <? un) then (- cutoff, Some ErrRange)
                 else (if neg then - un else un, None)
             end = (v, Some e)).
  { intros neg t. destruct (ParseUint_line t) as (un & e & -> & Hmax).
    destruct e; [eauto |]. rewrite (Hmax eq_refl). destruct neg; cbn; eauto. }
  destruct s as [| c r].
  - change ("" +:+ nl) with nl. cbn. eauto.
  - rewrite append_cons. unfold ParseInt.
    destruct (Ascii.eqb c "+"); [apply (Hsigned false r) |].
    destruct (Ascii.eqb c "-"); [apply (Hsigned true r) |].
    rewrite <- append_cons. apply (Hsigned false (String c r)).
Qed.

Lemma line_after_0x s r :
  s +:+ nl = String "0" (String "x" r) -> exists s', r = s' +:+ nl.
Proof.
  destruct s as [| a [| b s']].
  - intros H. discriminate H.
  - intros H. discriminate H.
  - rewrite !append_cons. intros [= _ _ <-]. exists s'. reflexivity.
Qed.

Lemma drop_prefix_nil s : drop_prefix s "" = s.
Proof. destruct s; reflexivity. Qed.

Lemma dovarint_flag args flag signed w :
  flag = "-from" \/ flag = "-to" ->
  dovarint (flag :: args) signed w
  = ('(val, _) <- input args 0 false ;; dovarint_switch flag val signed) w.
Proof. intros [-> | ->]; reflexivity. Qed.

End LineFeed.

(** X3: the resolver does not trim its value, so a value that ends in a
    line feed (a line piped by a shell) is never taken as a number:
    without a flag and under [-from] the command exits with the hex
    error, and under [-to] with [could not parse base 10 int]. *)
Theorem line_feed_is_not_trimmed args signed w s used w' :
  input args 0 false w = Done (s +:+ nl, used) w' ->
  (no_flag args ->
   exists e, dovarint args signed w
             = Exited 1 (put ("error decoding hex: " +:+ Hex.Error e +:+ nl) w')) /\
  (exists e, dovarint ("-from" :: args) signed w
             = Exited 1 (put ("error decoding hex: " +:+ Hex.Error e +:+ nl) w')) /\
  dovarint ("-to" :: args) signed w
  = Exited 1 (put ("could not parse base 10 int" +:+ nl) w').
Proof.
  intros Hin.
  assert (Hhex : forall t, exists e, DecodeString (t +:+ nl) = inl e).
  { intros t. apply DecodeString_refuses. rewrite all_hex_line. apply andb_false_r. }
  split; [| split].
  - intros Hnf. rewrite (dovarint_inferred _ signed _ _ _ _ Hnf Hin).
    destruct (HasPrefix (s +:+ nl) "0x") eqn:Hpre.
    + unfold TrimPrefix. rewrite Hpre.
      destruct (HasPrefix_0x _ Hpre) as (r & Hr).
      destruct (line_after_0x _ _ Hr) as (s' & ->). rewrite Hr. cbn [drop_prefix].
      rewrite drop_prefix_nil.
      destruct (Hhex s') as (e & He). exists e. apply dovarint_from_bad_hex. exact He.
    + destruct (ParseInt_line s) as (v & e & ->).
      destruct (Hhex s) as (e' & He). exists e'. apply dovarint_from_bad_hex. exact He.
  - rewrite dovarint_flag by (left; reflexivity). unfold bind. rewrite Hin.
    destruct (Hhex s) as (e & He). exists e.
    change (dovarint_switch "-from" (s +:+ nl) signed w') with (dovarint_from (s +:+ nl) signed w').
    apply dovarint_from_bad_hex. exact He.
  - rewrite dovarint_flag by (right; reflexivity). unfold bind. rewrite Hin.
    change (dovarint_switch "-to" (s +:+ nl) signed w') with (dovarint_to (s +:+ nl) signed w').
    unfold dovarint_to. destruct (ParseInt_line s) as (v & e & ->). reflexivity.
Qed.

Lemma line_feed_is_not_trimmed_witness :
  exists e, dovarint [] false (piped ("300" +:+ nl))
            = Exited 1 (put ("error decoding hex: " +:+ Hex.Error e +:+ nl) quiet).
Proof.
  destruct (line_feed_is_not_trimmed [] false (piped ("300" +:+ nl)) "300" true quiet
              eq_refl) as (Hflagless & _ & _).
  apply Hflagless. intros a rest H. discriminate H.
Defined.

(** ** What [-from] accepts *)

Section Decoding.

Lemma lor_bound a b n :
  0 <= a < 2 ^ n -> 0 <= b < 2 ^ n -> 0 <= Z.lor a b < 2 ^ n.
Proof.
  intros Ha Hb. split; [apply Z.lor_nonneg; lia |].
  destruct (Z.eq_dec (Z.lor a b) 0) as [-> | Hne]; [lia |].
  assert (Hpos : 0 < Z.lor a b) by (pose proof (proj2 (Z.lor_nonneg a b) ltac:(lia)); lia).
  destruct (Z.le_gt_cases n 0) as [Hn | Hn].
  { assert (2 ^ n <= 1).
    { destruct (Z.eq_dec n 0) as [-> | ?]; [reflexivity |].
      rewrite Z.pow_neg_r by lia. lia. }
    assert (a = 0) by lia. assert (b = 0) by lia. subst. discriminate Hpos. }
  apply Z.log2_lt_pow2; [exact Hpos |].
  rewrite Z.log2_lor by lia. apply Z.max_lub_lt.
  - destruct (Z.eq_dec a 0) as [-> | ?]; [exact Hn | apply Z.log2_lt_pow2; lia].
  - destruct (Z.eq_dec b 0) as [-> | ?]; [exact Hn | apply Z.log2_lt_pow2; lia].
Qed.

Lemma Uvarint_loop_range bs :
  forall i x s, 0 <= x < 2 ^ 64 -> 0 <= (Uvarint_loop bs i x s).1 < 2 ^ 64.
Proof.
  induction bs as [| b r IH]; intros i x s Hx; cbn [Uvarint_loop].
  - cbn. lia.
  - destruct (b <? 128).
    + destruct (_ || _); cbn [fst]; [lia |].
      apply lor_bound; [exact Hx | apply Z.mod_pos_bound; lia].
    + apply IH. apply lor_bound; [exact Hx | apply Z.mod_pos_bound; lia].
Qed.

Lemma Uvarint_loop_junk bs junk :
  forall i x s,
    (Uvarint_loop bs i x s).2 <> 0 ->
    Uvarint_loop (bs ++ junk) i x s = Uvarint_loop bs i x s.
Proof.
  induction bs as [| b r IH]; intros i x s; cbn [Uvarint_loop app].
  - intros H. exfalso. apply H. reflexivity.
  - destruct (b <? 128); [reflexivity |]. apply IH.
Qed.

Lemma Uvarint_loop_overflow bs :
  forall i x s, 10 <= i -> (Uvarint_loop bs i x s).2 <= 0.
Proof.
  induction bs as [| b r IH]; intros i x s Hi; cbn [Uvarint_loop].
  - cbn. lia.
  - destruct (b <? 128).
    + replace (9 <? i) with true by (symmetry; apply Z.ltb_lt; lia).
      cbn. lia.
    + apply IH. lia.
Qed.

Lemma Uvarint_loop_continued pre rest :
  forall i x s,
    0 <= i ->
    Forall (fun b => 128 <= b) pre ->
    rest = [] \/ 10 <= i + Z.of_nat (length pre) ->
    (Uvarint_loop (pre ++ rest) i x s).2 <= 0.
Proof.
  induction pre as [| b r IH]; intros i x s Hi Hpre Hend; cbn [app].
  - destruct Hend as [-> | Hlen]; [cbn; lia |].
    apply Uvarint_loop_overflow. cbn [length] in Hlen. lia.
  - inversion Hpre as [| ? ? Hb Hr]; subst. cbn [Uvarint_loop].
    replace (b <? 128) with false by (symmetry; apply Z.ltb_ge; lia).
    apply IH; [lia | exact Hr |].
    destruct Hend as [-> | Hlen]; [left; reflexivity | right].
    cbn [length] in Hlen. lia.
Qed.

(** The value of [Varint] is an [int64] whatever the bytes. *)
Lemma Varint_range bs : - 2 ^ 63 <= (Varint bs).1 < 2 ^ 63.
Proof.
  unfold Varint.
  pose proof (Uvarint_loop_range bs 0 0 0 ltac:(lia)) as Hux. fold (Uvarint bs) in Hux.
  destruct (Uvarint bs) as [ux n]. cbn [fst] in *.
  assert (Hhalf : 0 <= Z.shiftr ux 1 < 2 ^ 63).
  { rewrite Z.shiftr_div_pow2 by lia. change (2 ^ 1) with 2.
    change (2 ^ 64) with (2 * 2 ^ 63) in Hux.
    split; [apply Z.div_pos; lia | apply Z.div_lt_upper_bound; lia]. }
  destruct (negb _); cbn [fst]; [unfold Z.lnot |]; lia.
Qed.

Lemma Varint_count bs : (Varint bs).2 = (Uvarint bs).2.
Proof. unfold Varint. destruct (Uvarint bs) as [ux n]. reflexivity. Qed.

Lemma FormatInt_total n : - 2 ^ 63 <= n < 2 ^ 63 -> exists s, FormatInt n = Some s.
Proof. intros Hn. destruct (FormatInt_ParseInt n Hn) as (s & Hs & _). eauto. Qed.

Lemma FormatUint_total n : 0 <= n < 2 ^ 64 -> exists s, FormatUint n = Some s.
Proof. intros Hn. destruct (FormatUint_ParseUint n Hn) as (s & Hs & _). eauto. Qed.

(** [dovarint_from] on bytes: the diagnostic when the count is not
    positive, the decimal line otherwise. *)
Lemma dovarint_from_bytes v bs signed w :
  DecodeString v = inr bs ->
  ((Uvarint bs).2 <= 0 ->
   dovarint_from v signed w = Exited 1 (put ("could not parse varint" +:+ nl) w)) /\
  (0 < (Uvarint bs).2 ->
   exists dec,
     (if signed then FormatInt (Varint bs).1 else FormatUint (Uvarint bs).1) = Some dec /\
     dovarint_from v signed w = Done tt (put (dec +:+ nl) w)).
Proof.
  intros Hv. unfold dovarint_from, bind. rewrite (mustDecodeHex_ok _ _ _ Hv).
  pose proof (Varint_count bs) as Hcount. pose proof (Varint_range bs) as Hvr.
  pose proof (Uvarint_loop_range bs 0 0 0 ltac:(lia)) as Hur. fold (Uvarint bs) in Hur.
  destruct signed.
  - destruct (Varint bs) as [n k]. cbn [fst snd] in *. subst k. split.
    + intros Hk. replace ((Uvarint bs).2 <=? 0) with true by (symmetry; apply Z.leb_le; lia).
      reflexivity.
    + intros Hk. replace ((Uvarint bs).2 <=? 0) with false by (symmetry; apply Z.leb_gt; lia).
      destruct (FormatInt_total n Hvr) as (dec & Hdec). exists dec.
      split; [exact Hdec |]. cbn [when ret]. apply Println_int64_run. exact Hdec.
  - destruct (Uvarint bs) as [n k]. cbn [fst snd] in *. split.
    + intros Hk. replace (k <=? 0) with true by (symmetry; apply Z.leb_le; lia).
      reflexivity.
    + intros Hk. replace (k <=? 0) with false by (symmetry; apply Z.leb_gt; lia).
      destruct (FormatUint_total n Hur) as (dec & Hdec). exists dec.
      split; [exact Hdec |]. cbn [when ret]. apply Println_uint64_run. exact Hdec.
Qed.

End Decoding.

(** X4: [-from] refuses an encoding that never ends (every byte has the
    continuation bit, the empty text included) and an encoding of more
    than ten bytes: it prints [could not parse varint] and exits with
    status 1. *)
Theorem unfinished_or_long_varint_is_refused pre rest more signed w :
  Forall (fun b => 128 <= b < 256) pre ->
  Forall (fun b => 0 <= b < 256) rest ->
  rest = [] \/ (10 <= length pre)%nat ->
  dovarint ("-from" :: EncodeToString (pre ++ rest) :: more) signed w
  = Exited 1 (put ("could not parse varint" +:+ nl) w).
Proof.
  intros Hpre Hrest Hend.
  rewrite (dovarint_flag_from _ _ _ _ (EncodeToString_never_dash _)).
  assert (Hrange : Forall (fun b => 0 <= b < 256) (pre ++ rest)).
  { apply Forall_app. split; [| exact Hrest].
    eapply Forall_impl; [exact Hpre |]. cbv beta. intros b Hb. lia. }
  apply (dovarint_from_bytes _ _ signed w (DecodeString_EncodeToString _ Hrange)).
  unfold Uvarint. apply Uvarint_loop_continued; [lia | |].
  - eapply Forall_impl; [exact Hpre |]. cbv beta. intros b Hb. lia.
  - destruct Hend as [-> | Hlen]; [left; reflexivity | right; lia].
Qed.

Lemma unfinished_or_long_varint_is_refused_witness :
  dovarint ["-from"; ""] true quiet
  = Exited 1 (put ("could not parse varint" +:+ nl) quiet) /\
  dovarint ["-from"; "ffffffffffffffffffff01"] false quiet
  = Exited 1 (put ("could not parse varint" +:+ nl) quiet).
Proof.
  split.
  - apply (unfinished_or_long_varint_is_refused [] [] [] true quiet);
      [constructor | constructor | left; reflexivity].
  - apply (unfinished_or_long_varint_is_refused (repeat 255 10) [1] [] false quiet).
    + repeat constructor; lia.
    + repeat constructor; lia.
    + right. cbn. lia.
Defined.

(** X5: [-from] reads one number from the start of the bytes: when the
    hex text starts with a complete encoding, whatever bytes follow it
    change nothing. *)
Theorem bytes_after_the_varint_are_ignored bs junk more signed w :
  Forall (fun b => 0 <= b < 256) bs ->
  Forall (fun b => 0 <= b < 256) junk ->
  0 < (Uvarint bs).2 ->
  dovarint ("-from" :: EncodeToString (bs ++ junk) :: more) signed w
  = dovarint ("-from" :: EncodeToString bs :: more) signed w.
Proof.
  intros Hbs Hjunk Hk.
  rewrite !(dovarint_flag_from _ _ _ _ (EncodeToString_never_dash _)).
  unfold dovarint_from, bind.
  rewrite (mustDecodeHex_ok _ (bs ++ junk))
    by (apply DecodeString_EncodeToString, Forall_app; split; assumption).
  rewrite (mustDecodeHex_ok _ bs) by (apply DecodeString_EncodeToString; exact Hbs).
  assert (Hsame : Uvarint (bs ++ junk) = Uvarint bs).
  { unfold Uvarint. apply Uvarint_loop_junk. unfold Uvarint in Hk. lia. }
  unfold Varint. rewrite Hsame. reflexivity.
Qed.

Lemma bytes_after_the_varint_are_ignored_witness :
  dovarint ["-from"; "ac02ffff"] false quiet = dovarint ["-from"; "ac02"] false quiet.
Proof.
  apply (bytes_after_the_varint_are_ignored [172; 2] [255; 255] [] false quiet).
  - repeat constructor; lia.
  - repeat constructor; lia.
  - reflexivity.
Defined.

(** X6: [uvarint -to] takes a negative decimal [n] as the [uint64]
    [n + 2^64]: it prints an encoding which [-from] decodes to the
    decimal text of [n + 2^64], not of [n]. *)
Theorem uvarint_wraps_negative n :
  - 2 ^ 63 <= n < 0 ->
  exists dec h big,
    FormatInt n = Some dec /\ FormatUint (n + 2 ^ 64) = Some big /\
    (forall rest w,
        dovarint ("-to" :: dec :: rest) false w = Done tt (put (h +:+ nl) w)) /\
    (forall rest w,
        dovarint ("-from" :: h :: rest) false w = Done tt (put (big +:+ nl) w)).
Proof.
  intros Hn. change (2 ^ 63) with 9223372036854775808 in Hn.
  destruct (FormatInt_ParseInt n ltac:(change (2 ^ 63) with 9223372036854775808; lia))
    as (dec & Hdec & Hparse & Hdash).
  destruct (dovarint_to_parsed dec false n Hparse) as (bs & Hlen & Hbytes & Hread & Hto).
  assert (Hword : varint_word false n = n + 2 ^ 64).
  { unfold varint_word. symmetry.
    apply (Z.mod_unique _ _ (-1)); change (2 ^ 64) with 18446744073709551616; lia. }
  rewrite Hword in Hread.
  destruct (FormatUint_total (n + 2 ^ 64)
              ltac:(change (2 ^ 64) with 18446744073709551616; lia)) as (big & Hbig).
  exists dec, (EncodeToString bs), big. repeat split; try assumption.
  - intros rest w. rewrite (dovarint_flag_to _ _ _ _ Hdash). apply Hto.
  - intros rest w. rewrite (dovarint_flag_from _ _ _ _ (EncodeToString_never_dash _)).
    rewrite (dovarint_from_encoded _ _ _ _ Hlen Hbytes Hread).
    apply Println_uint64_run. exact Hbig.
Qed.

Lemma uvarint_wraps_negative_witness :
  exists dec h big,
    FormatInt (- 1) = Some dec /\ FormatUint (- 1 + 2 ^ 64) = Some big /\
    (forall rest w,
        dovarint ("-to" :: dec :: rest) false w = Done tt (put (h +:+ nl) w)) /\
    (forall rest w,
        dovarint ("-from" :: h :: rest) false w = Done tt (put (big +:+ nl) w)).
Proof. apply (uvarint_wraps_negative (- 1)). lia. Defined.

(** ** A result or a diagnostic for every command *)

Section Outcomes.

Lemma silent_ret {A} (Q : A -> Prop) a : Q a -> silent_with Q (ret a).
Proof. intros Ha w. left. exists a, w. auto. Qed.

Lemma silent_errorf {A} (Q : A -> Prop) msg (k : M A) :
  diagnostic msg -> silent_with Q (errorf msg ;; k).
Proof. intros Hmsg w. right. exists msg, w. auto. Qed.

Lemma silent_bind {A B} (P : A -> Prop) (Q : B -> Prop) m (k : A -> M B) :
  silent_with P m -> (forall a, P a -> silent_with Q (k a)) ->
  silent_with Q (bind m k).
Proof.
  intros Hm Hk w. unfold bind.
  destruct (Hm w) as [(a & w' & -> & Hout & Ha) | (msg & w' & -> & Hout & Hmsg)].
  - destruct (Hk a Ha w')
      as [(b & w'' & -> & Hout' & Hb) | (msg & w'' & -> & Hout' & Hmsg)].
    + left. exists b, w''. split; [reflexivity |]. split; [congruence | exact Hb].
    + right. exists msg, w''. split; [reflexivity |]. split; [congruence | exact Hmsg].
  - right. exists msg, w'. auto.
Qed.

Lemma outcome_bind {A} (P : A -> Prop) m (k : A -> M unit) :
  silent_with P m -> (forall a, P a -> result_or_diagnostic (k a)) ->
  result_or_diagnostic (bind m k).
Proof.
  intros Hm Hk w. unfold bind.
  destruct (Hm w) as [(a & w' & -> & Hout & Ha) | (msg & w' & -> & Hout & Hmsg)].
  - destruct (Hk a Ha w')
      as [(text & w'' & -> & Hout') | (msg & w'' & -> & Hout' & Hmsg)].
    + left. exists text, w''. split; [reflexivity | congruence].
    + right. exists msg, w''. split; [reflexivity |]. split; [congruence | exact Hmsg].
  - right. exists msg, w'. auto.
Qed.

Lemma outcome_Println s : result_or_diagnostic (Println s).
Proof. intros w. left. exists s, w. auto. Qed.

Lemma outcome_Print s : result_or_diagnostic (Print (s +:+ nl)).
Proof. intros w. left. exists s, w. auto. Qed.

Lemma outcome_errorf msg : diagnostic msg -> result_or_diagnostic (errorf msg).
Proof. intros Hmsg w. right. exists msg, w. auto. Qed.

Lemma silent_input args n used : silent_with (fun _ => True) (input args n used).
Proof.
  intros w. unfold input.
  destruct ((n <? length args)%nat && negb (String.eqb (default "" (args !! n)) "-")).
  - left. eexists _, w. auto.
  - destruct used.
    + right. exists "can use stdin for only one arg", w.
      split; [reflexivity |]. split; [reflexivity | apply diag_stdin_twice].
    + unfold bind, when, ret, ReadAll_stdin.
      destruct (ReadAll_loop (stdin w) "") as [[b [e |]] rest].
      * right. exists ("unexpected error: " +:+ e), (mkWorld rest (stdout w) (rand w)).
        split; [reflexivity |]. split; [reflexivity | apply diag_stdin].
      * left. eexists _, (mkWorld rest (stdout w) (rand w)). auto.
Qed.

Lemma silent_mustDecodeHex s : silent_with (fun _ => True) (mustDecodeHex s).
Proof.
  intros w. destruct (DecodeString s) as [e | bs] eqn:Hs.
  - right. exists ("error decoding hex: " +:+ Hex.Error e), w.
    split; [| split; [reflexivity | apply diag_hex]].
    rewrite (mustDecodeHex_error _ _ _ Hs). rewrite append_assoc. reflexivity.
  - left. exists bs, w. rewrite (mustDecodeHex_ok _ _ _ Hs). auto.
Qed.

Lemma silent_mustSubcommand name :
  silent_with (fun cmd => subcommands !! name = Some cmd) (mustSubcommand name).
Proof.
  intros w. destruct (subcommands !! name) as [cmd |] eqn:Hname.
  - left. exists cmd, w. rewrite (mustSubcommand_known _ _ _ Hname). auto.
  - right. exists ("unknown subcommand " +:+ dquote +:+ name +:+ dquote), w.
    rewrite (mustSubcommand_unknown _ _ Hname). rewrite !append_assoc.
    split; [reflexivity |]. split; [reflexivity | apply diag_unknown].
Qed.

(** The two directions of the codec. *)
Lemma outcome_dovarint_to val signed : result_or_diagnostic (dovarint_to val signed).
Proof.
  intros w. destruct (ParseInt val 64) as [n [e |]] eqn:Hparse.
  - right. exists "could not parse base 10 int", w.
    split; [| split; [reflexivity | apply diag_decimal]].
    unfold dovarint_to. rewrite Hparse. reflexivity.
  - destruct (dovarint_to_parsed val signed n Hparse) as (bs & _ & _ & _ & Hto).
    left. exists (EncodeToString bs), w. split; [apply Hto | reflexivity].
Qed.

Lemma outcome_dovarint_from val signed : result_or_diagnostic (dovarint_from val signed).
Proof.
  intros w. destruct (DecodeString val) as [e | bs] eqn:Hval.
  - right. exists ("error decoding hex: " +:+ Hex.Error e), w.
    split; [| split; [reflexivity | apply diag_hex]].
    rewrite (dovarint_from_bad_hex _ _ _ _ Hval). rewrite append_assoc. reflexivity.
  - destruct (dovarint_from_bytes val bs signed w Hval) as [Hbad Hgood].
    destruct (Z.le_gt_cases (Uvarint bs).2 0) as [Hk | Hk].
    + right. exists "could not parse varint", w.
      split; [apply Hbad, Hk | split; [reflexivity | apply diag_varint]].
    + destruct (Hgood ltac:(lia)) as (dec & _ & Hrun).
      left. exists dec, w. split; [exact Hrun | reflexivity].
Qed.

Lemma outcome_dovarint args signed : result_or_diagnostic (dovarint args signed).
Proof.
  assert (Hflag : forall flag rest,
             flag = "-from" \/ flag = "-to" ->
             result_or_diagnostic
               ('(val, _) <- input rest 0 false ;; dovarint_switch flag val signed)).
  { intros flag rest Hf. eapply outcome_bind; [apply silent_input |].
    intros [val u] _. destruct Hf as [-> | ->].
    - apply outcome_dovarint_from.
    - apply outcome_dovarint_to. }
  assert (Hinfer : result_or_diagnostic
            ('(val, _) <- input args 0 false ;;
             let '(mode, val) :=
               if HasPrefix val "0x" then ("-from", TrimPrefix val "0x")
               else
                 match ParseInt val 64 with
                 | (_, None) => ("-to", val)
                 | (_, Some _) => ("-from", val)
                 end in
             dovarint_switch mode val signed)).
  { eapply outcome_bind; [apply silent_input |].
    intros [val u] _. destruct (HasPrefix val "0x"); [apply outcome_dovarint_from |].
    destruct (ParseInt val 64) as [n [e |]];
      [apply outcome_dovarint_from | apply outcome_dovarint_to]. }
  unfold dovarint. destruct args as [| a rest]; [exact Hinfer |].
  destruct (String.eqb_spec a "-from") as [-> | Hfrom]; [apply Hflag; auto |].
  destruct (String.eqb_spec a "-to") as [-> | Hto]; [apply Hflag; auto |].
  exact Hinfer.
Qed.

Context (E : Collaborators).

Lemma silent_mustDecodeHash s : silent_with (fun _ => True) (mustDecodeHash E s).
Proof.
  intros w. unfold mustDecodeHash. destruct (Hash_UnmarshalText E s) as [err | h].
  - right. exists ("error decoding hash: " +:+ err), w.
    split; [reflexivity |]. split; [reflexivity | apply diag_hash].
  - left. exists h, w. auto.
Qed.

Lemma silent_derive_path rest :
  forall path, silent_with (fun _ => True) (derive_path rest path).
Proof.
  induction rest as [| a rest IH]; intros path; cbn [derive_path].
  - apply silent_ret. exact I.
  - destruct (ParseUint a 32) as [p [e |]].
    + rewrite bool_decide_true by discriminate. apply silent_errorf, diag_uint32.
    + rewrite bool_decide_false by (intros H; apply H; reflexivity).
      eapply silent_bind; [apply (silent_ret (fun _ => True)); exact I |].
      intros _ _. apply IH.
Qed.

Ltac fails :=
  apply outcome_errorf;
  first [ apply diag_key | apply diag_script | apply diag_block
        | apply diag_blockheader | apply diag_tx | apply diag_rand ].

Ltac step :=
  first
    [ apply outcome_Println | apply outcome_Print | fails
    | eapply outcome_bind; [apply silent_input | intros [? ?] _]
    | eapply outcome_bind; [apply silent_mustDecodeHex | intros ? _]
    | eapply outcome_bind; [apply silent_mustDecodeHash | intros ? _] ].

Lemma outcome_assetid args : result_or_diagnostic (assetid E args).
Proof. unfold assetid. repeat step. Qed.

Lemma outcome_block args : result_or_diagnostic (block E args).
Proof. unfold block. step. destruct (Block_UnmarshalJSON E _); step. Qed.

Lemma outcome_blockheader args : result_or_diagnostic (blockheader E args).
Proof. unfold blockheader. step. destruct (BlockHeader_UnmarshalJSON E _); step. Qed.

Lemma outcome_tx args : result_or_diagnostic (tx E args).
Proof. unfold tx. step. destruct (TxData_UnmarshalText E _); step. Qed.

Lemma outcome_derive args : args <> [] -> result_or_diagnostic (derive E args).
Proof.
  intros Hargs. unfold derive. step.
  replace (length args =? 0)%nat with false
    by (symmetry; apply Nat.eqb_neq; destruct args; [congruence | discriminate]).
  eapply outcome_bind; [apply (silent_ret (fun _ => True)); exact I | intros _ _].
  eapply outcome_bind; [apply silent_derive_path | intros path _].
  destruct (XPrvFromString E _); [step |]. destruct (XPubFromString E _); step.
Qed.

Lemma outcome_genprv args : result_or_diagnostic (genprv E args).
Proof.
  intros w. unfold genprv. destruct (GenerateKey E (rand w)) as [err | [pk prv]].
  - apply outcome_errorf, diag_rand.
  - apply outcome_Println.
Qed.

Lemma outcome_genxprv args : result_or_diagnostic (genxprv E args).
Proof.
  intros w. unfold genxprv. destruct (NewXKeys E (rand w)) as [err | [xprv xpub]].
  - apply outcome_errorf, diag_rand.
  - apply outcome_Println.
Qed.

Lemma outcome_hexCmd args : result_or_diagnostic (hexCmd args).
Proof. unfold hexCmd. step. destruct (DecodeString _); step. Qed.

Lemma outcome_hmac512 args : result_or_diagnostic (hmac512 E args).
Proof. unfold hmac512. repeat step. Qed.

Lemma outcome_pub args : result_or_diagnostic (pub E args).
Proof.
  unfold pub. step. destruct (XPrvFromString E _); [step |].
  step. destruct (PrvFromBytes E _); step.
Qed.

Lemma outcome_script args : result_or_diagnostic (script E args).
Proof.
  unfold script. step. cbv zeta.
  assert (Hassemble : forall inp,
             result_or_diagnostic
               match ParseScriptString E inp with
               | Some parsed => Println (EncodeToString parsed)
               | None => errorf "could not parse input"
               end).
  { intros inp. destruct (ParseScriptString E inp); step. }
  destruct (DecodeString _); [apply Hassemble |].
  destruct (DisasmString E _); [step | apply Hassemble].
Qed.

Lemma outcome_sha3Cmd args : result_or_diagnostic (sha3Cmd E args).
Proof. unfold sha3Cmd. repeat step. Qed.

Lemma outcome_zerohash args : result_or_diagnostic (zerohash E args).
Proof. unfold zerohash. step. Qed.

(** In [sign] and [verify] the raw key is [nil] only when the extended
    key is not, so the signature function is never given a [nil] key. *)
Lemma outcome_sign args : result_or_diagnostic (sign E args).
Proof.
  unfold sign. do 2 step.
  eapply (outcome_bind (fun kp => kp.1 <> None \/ kp.2 <> None)).
  - destruct (XPrvFromString E _) as [xprv |].
    + apply silent_ret. left. discriminate.
    + eapply silent_bind; [apply silent_mustDecodeHex | intros raw _].
      cbv zeta. destruct (PrvFromBytes E raw) as [prv |].
      * rewrite bool_decide_false by discriminate.
        eapply silent_bind; [apply (silent_ret (fun _ => True)); exact I | intros _ _].
        apply silent_ret. right. discriminate.
      * rewrite bool_decide_true by reflexivity. apply silent_errorf, diag_key.
  - intros [xprv prv] Hkey. cbn [fst snd] in Hkey. step.
    eapply outcome_bind; [| intros signed _; step].
    destruct xprv as [xprv |]; [apply (silent_ret (fun _ => True)); exact I |].
    destruct prv as [prv |]; [| destruct Hkey as [H | H]; exfalso; apply H; reflexivity].
    eapply silent_bind; [apply (silent_ret (fun _ => True)); exact I | intros p _].
    apply silent_ret. exact I.
Qed.

Lemma outcome_verify args : result_or_diagnostic (verify E args).
Proof.
  unfold verify. do 3 step.
  eapply (outcome_bind (fun kp => kp.1 <> None \/ kp.2 <> None)).
  - destruct (XPubFromString E _) as [xpub |].
    + apply silent_ret. left. discriminate.
    + eapply silent_bind; [apply silent_mustDecodeHex | intros raw _].
      cbv zeta. destruct (PubFromBytes E raw) as [pub |].
      * rewrite bool_decide_false by discriminate.
        eapply silent_bind; [apply (silent_ret (fun _ => True)); exact I | intros _ _].
        apply silent_ret. right. discriminate.
      * rewrite bool_decide_true by reflexivity. apply silent_errorf, diag_key.
  - intros [xpub pub] Hkey. cbn [fst snd] in Hkey. do 2 step.
    eapply outcome_bind; [| intros [|] _; step].
    destruct xpub as [xpub |]; [apply (silent_ret (fun _ => True)); exact I |].
    destruct pub as [pub |]; [| destruct Hkey as [H | H]; exfalso; apply H; reflexivity].
    eapply silent_bind; [apply (silent_ret (fun _ => True)); exact I | intros p _].
    apply silent_ret. exact I.
Qed.

Lemma outcome_call f args :
  f <> fn_help -> (f = fn_derive -> args <> []) ->
  result_or_diagnostic (call E f args).
Proof.
  intros Hhelp Hderive. destruct f; cbn [call];
    first [ apply outcome_assetid | apply outcome_block | apply outcome_blockheader
          | apply outcome_derive; apply Hderive; reflexivity
          | apply outcome_genprv | apply outcome_genxprv | apply outcome_hexCmd
          | apply outcome_hmac512 | apply outcome_pub | apply outcome_script
          | apply outcome_sha3Cmd | apply outcome_sign | apply outcome_tx
          | apply outcome_dovarint | apply outcome_verify | apply outcome_zerohash
          | exfalso; apply Hhelp; reflexivity ].
Qed.

End Outcomes.

Section Registry.

Lemma subcommands_entry name cmd :
  subcommands !! name = Some cmd ->
  (fn cmd = fn_help -> name = "help") /\ (fn cmd = fn_derive -> name = "derive").
Proof.
  unfold subcommands. rewrite lookup_insert_Some.
  intros [[<- <-] | [_ Hlit]].
  - split; [reflexivity | intros H; discriminate H].
  - unfold subcommands_literal in Hlit. apply elem_of_list_to_map_2 in Hlit.
    repeat (apply elem_of_cons in Hlit as [[= -> ->] | Hlit];
            [split; cbn [fn]; intros H; first [reflexivity | discriminate H] |]).
    apply elem_of_nil in Hlit. destruct Hlit.
Qed.

Lemma append_nil_r s : s +:+ "" = s.
Proof.
  induction s as [| c s IH]; [reflexivity |].
  change (String c (s +:+ "") = String c s). rewrite IH. reflexivity.
Qed.

Lemma put_put s t w : put t (put s w) = put (s +:+ t) w.
Proof. unfold put. cbn [stdin stdout rand]. rewrite append_assoc. reflexivity. Qed.

Lemma put_nil w : put "" w = w.
Proof. destruct w. unfold put. cbn [stdin stdout rand]. rewrite append_nil_r. reflexivity. Qed.

Lemma help_listing_run entries :
  forall w,
    foldr (fun '(name, cmd) k =>
             Print (fmt_16 name +:+ " " +:+ help_text cmd +:+ nl) ;; k)
          (ret tt) entries w
    = Done tt (put (help_listing entries) w).
Proof.
  induction entries as [| [name cmd] entries IH]; intros w; cbn [foldr help_listing].
  - rewrite put_nil. reflexivity.
  - unfold bind. cbn [Print]. rewrite IH, put_put. reflexivity.
Qed.

End Registry.

Section Excluded.

Lemma append_line_inj a b : a +:+ nl = b +:+ nl -> a = b.
Proof.
  revert b. induction a as [| x a IH]; intros [| y b] H.
  - reflexivity.
  - change (nl = String y (b +:+ nl)) in H. destruct b; discriminate H.
  - change (String x (a +:+ nl) = nl) in H. destruct a; discriminate H.
  - change (String x (a +:+ nl) = String y (b +:+ nl)) in H.
    injection H as -> H. rewrite (IH b H). reflexivity.
Qed.

(** A command that printed a result and then failed would not pass: the
    text added before the exit has to be one diagnostic. *)
Lemma result_then_diagnostic_is_excluded :
  ~ result_or_diagnostic (Println "result" ;; errorf "could not parse key").
Proof.
  intros H. destruct (H quiet) as [(text & w' & Hrun & _) | (msg & w' & Hrun & Hout & Hmsg)].
  - discriminate Hrun.
  - destruct w' as [i o r]. cbn in Hout. subst o.
    injection Hrun as _ Hw _.
    change (("result" +:+ nl +:+ "could not parse key") +:+ nl = msg +:+ nl) in Hw.
    apply append_line_inj in Hw. subst msg. inversion Hmsg.
Qed.

End Excluded.

(** X9: the functions of the packages it calls being taken to return,
    every command but [help], whatever its arguments and standard
    input ([derive] being given one argument at least), never panics
    and ends in one of two ways: it returns after adding to the
    standard output a text ended by a line feed, or it exits with
    status 1 after adding exactly one diagnostic of the tool and
    nothing before it; for an unknown command name it is the
    diagnostic. *)
Theorem every_command_gives_a_result_or_a_diagnostic
    (E : Collaborators) prog name args :
  name <> "help" -> (name = "derive" -> args <> []) ->
  result_or_diagnostic (main E (prog :: name :: args)).
Proof.
  intros Hhelp Hderive w.
  assert (Hone : result_or_diagnostic (subcommand <- mustSubcommand name ;;
                                       call E (fn subcommand) args)).
  { eapply outcome_bind; [apply silent_mustSubcommand |].
    intros cmd Hcmd. destruct (subcommands_entry _ _ Hcmd) as [Hh Hd].
    apply outcome_call; auto. }
  rewrite main_dispatch. apply Hone.
Qed.

Lemma every_command_gives_a_result_or_a_diagnostic_witness :
  result_or_diagnostic (main sample ["multitool"; "sign"; "-"; "-"]) /\
  result_or_diagnostic (main sample ["multitool"; "derive"; "xprv00"; "7"]).
Proof.
  split.
  - apply every_command_gives_a_result_or_a_diagnostic; intros H; discriminate H.
  - apply every_command_gives_a_result_or_a_diagnostic; [intros H | intros _ H];
      discriminate H.
Defined.

(** X10: [help] without an argument returns after printing one line for
    each entry of the registry, each entry once, [help] itself among
    them, in some order; [help] with the name of a registered command
    prints the description and the usage of that command. *)
Theorem help_lists_every_command w :
  (exists entries,
      NoDup entries /\
      (forall name cmd, (name, cmd) ∈ entries <-> subcommands !! name = Some cmd) /\
      help [] w = Done tt (put (help_listing entries) w)) /\
  (forall name cmd rest,
      subcommands !! name = Some cmd ->
      help (name :: rest) w
      = Done tt (put (help_text cmd +:+ nl +:+ name +:+ " " +:+ usage cmd +:+ nl) w)).
Proof.
  split.
  - exists (map_to_list subcommands). split; [apply NoDup_map_to_list |]. split.
    + intros name cmd. apply elem_of_map_to_list.
    + unfold help. apply help_listing_run.
  - intros name cmd rest Hname. unfold help, bind.
    rewrite (mustSubcommand_known _ _ _ Hname). unfold Println, Print.
    rewrite put_put, !append_assoc. reflexivity.
Qed.

Lemma help_lists_every_command_witness :
  help ["uvarint"] quiet
  = Done tt (put ("decimal <-> hex" +:+ nl +:+ "uvarint [-from|-to] VAL" +:+ nl) quiet).
Proof.
  destruct (help_lists_every_command quiet) as [_ Hnamed].
  apply (Hnamed "uvarint" (mkCommand fn_uvarint "decimal <-> hex" "[-from|-to] VAL") []).
  vm_compute. reflexivity.
Defined.

(** ** The [derive] command *)

Section Derive.

Lemma ParseUint_loop_le cutoff maxVal s :
  forall n r, n <= maxVal -> ParseUint_loop s n cutoff maxVal = (r, None) -> r <= maxVal.
Proof.
  induction s as [| c s IH]; intros n r Hn; cbn [ParseUint_loop].
  - intros [= <-]. exact Hn.
  - destruct ((48 <=? byte_of_ascii c) && (byte_of_ascii c <=? 57));
      [| intros H; discriminate H].
    cbv zeta. destruct (cutoff <=? n); [intros H; discriminate H |].
    destruct (_ || _) eqn:Hchk; [intros H; discriminate H |].
    apply orb_false_iff in Hchk as [_ Hmax]. apply Z.ltb_ge in Hmax.
    apply IH. exact Hmax.
Qed.

(** A text that [ParseUint] accepts at 32 bits denotes a [uint32]. *)
Lemma ParseUint_32_range a p : ParseUint a 32 = (p, None) -> 0 <= p < 2 ^ 32.
Proof.
  unfold ParseUint. destruct a as [| c r]; [intros H; discriminate H |].
  intros Hp. split.
  - eapply ParseUint_loop_nonneg; [| exact Hp]. lia.
  - assert (Hle : p <= 2 ^ 32 - 1); [| lia].
    eapply ParseUint_loop_le; [| exact Hp]. change (2 ^ 32) with 4294967296. lia.
Qed.

(** Raising the bit size keeps what [ParseUint] accepts. *)
Lemma ParseUint_loop_mono cutoff m1 m2 s :
  m1 <= m2 ->
  forall n r, ParseUint_loop s n cutoff m1 = (r, None) ->
              ParseUint_loop s n cutoff m2 = (r, None).
Proof.
  intros Hm. induction s as [| c s IH]; intros n r; cbn [ParseUint_loop]; [auto |].
  destruct ((48 <=? byte_of_ascii c) && (byte_of_ascii c <=? 57)); [| auto].
  cbv zeta. destruct (cutoff <=? n); [auto |].
  destruct (_ || _) eqn:Hchk; [intros H; discriminate H |].
  apply orb_false_iff in Hchk as [Hwrap Hmax]. apply Z.ltb_ge in Hmax.
  rewrite Hwrap.
  replace (m2 <? _) with false by (symmetry; apply Z.ltb_ge; lia).
  apply IH.
Qed.

Lemma FormatUint_ParseUint_32 p s :
  0 <= p < 2 ^ 64 -> FormatUint p = Some s ->
  (p < 2 ^ 32 -> ParseUint s 32 = (p, None)) /\
  (2 ^ 32 <= p -> (ParseUint s 32).2 <> None).
Proof.
  intros Hp Hs. split.
  - intros Hsmall.
    destruct (formatBits_loop_parse (2 ^ 32 - 1) 65 p "" ltac:(lia) ltac:(lia)
                ltac:(unfold maxUint64; change (2 ^ 32) with 4294967296;
                      change (2 ^ 64) with 18446744073709551616; lia)
                ltac:(apply (Z.lt_le_trans _ (2 ^ 64)); [lia | vm_compute; discriminate]))
      as (s' & Hs' & Hparse & d & r & -> & Hd).
    unfold FormatUint in Hs. rewrite Hs in Hs'. injection Hs' as ->.
    unfold ParseUint. exact Hparse.
  - intros Hbig Hnone.
    destruct (FormatUint_ParseUint p Hp) as (s' & Hs' & Hparse & d & r & -> & Hd).
    rewrite Hs in Hs'. injection Hs' as ->.
    destruct (ParseUint (String (ascii_of_byte (48 + d)) r) 32) as [q e] eqn:Hq.
    cbn [snd] in Hnone. subst e.
    pose proof (ParseUint_32_range _ _ Hq) as Hrange.
    unfold ParseUint in Hq, Hparse.
    rewrite (ParseUint_loop_mono _ (2 ^ 32 - 1) (2 ^ 64 - 1) _
               ltac:(change (2 ^ 32) with 4294967296;
                     change (2 ^ 64) with 18446744073709551616; lia) _ _ Hq) in Hparse.
    injection Hparse as ->. lia.
Qed.

Context (E : Collaborators).

Lemma derive_path_good texts ps :
  Forall2 (fun a p => ParseUint a 32 = (p, None)) texts ps ->
  forall path w, derive_path texts path w = Done (path ++ ps) w.
Proof.
  induction 1 as [| a p texts ps Hp _ IH]; intros path w; cbn [derive_path].
  - rewrite app_nil_r. reflexivity.
  - rewrite Hp. rewrite bool_decide_false by (intros H; apply H; reflexivity).
    unfold bind. cbn [when ret]. rewrite IH.
    rewrite Z.mod_small by (apply (ParseUint_32_range _ _ Hp)).
    rewrite <- app_assoc. reflexivity.
Qed.

Lemma derive_path_bad good bad rest :
  Forall (fun a => (ParseUint a 32).2 = None) good ->
  (ParseUint bad 32).2 <> None ->
  forall path w,
    derive_path (good ++ bad :: rest) path w
    = Exited 1 (put ("could not parse " +:+ bad +:+ " as uint32" +:+ nl) w).
Proof.
  intros Hgood Hbad. induction Hgood as [| a good Ha _ IH]; intros path w;
    cbn [app derive_path].
  - destruct (ParseUint bad 32) as [p e]. cbn [snd] in Hbad.
    rewrite bool_decide_true by exact Hbad. unfold bind. cbn [when].
    rewrite errorf_run, !append_assoc. reflexivity.
  - destruct (ParseUint a 32) as [p e]. cbn [snd] in Ha. subst e.
    rewrite bool_decide_false by (intros H; apply H; reflexivity).
    unfold bind. cbn [when ret]. apply IH.
Qed.

Lemma derive_literal k texts w :
  k <> "-" ->
  derive E (k :: texts) w
  = (path <- derive_path texts [] ;;
     match XPrvFromString E k with
     | Some xprv => Println (XPrv_String E (XPrv_Derive E xprv path))
     | None =>
         match XPubFromString E k with
         | Some xpub => Println (XPub_String E (XPub_Derive E xpub path))
         | None => errorf "could not parse key"
         end
     end) w.
Proof.
  intros Hk. unfold derive. unfold bind at 1.
  rewrite (input_literal (k :: texts) 0 false w k eq_refl Hk). reflexivity.
Qed.

End Derive.

(** X11: [derive] without any argument prints no key: it reads the key
    from standard input and then panics on the capacity [-1] of the
    path. *)
Theorem derive_without_arguments_panics (E : Collaborators) w b rest :
  ReadAll_loop (stdin w) "" = (b, None, rest) ->
  derive E [] w = Panicked (mkWorld rest (stdout w) (rand w)).
Proof.
  intros Hread. unfold derive. unfold bind at 1.
  rewrite (input_stdin_once [] 0 w b rest (or_introl eq_refl) Hread). reflexivity.
Qed.

Lemma derive_without_arguments_panics_witness :
  derive sample [] (piped "xprv00") = Panicked quiet.
Proof. apply (derive_without_arguments_panics sample (piped "xprv00") "xprv00" []). reflexivity. Defined.

(** X12: [derive] checks the path before the key: at the first path
    segment that is no decimal [uint32] it prints [could not parse ...
    as uint32] with that segment and exits with status 1, whether or
    not the key is valid; the decimal text of a number from 2^32 up is
    such a segment. *)
Theorem derive_refuses_bad_segment (E : Collaborators) k good bad rest w :
  k <> "-" ->
  Forall (fun a => (ParseUint a 32).2 = None) good ->
  ((ParseUint bad 32).2 <> None \/
   exists p, 2 ^ 32 <= p < 2 ^ 64 /\ FormatUint p = Some bad) ->
  derive E (k :: good ++ bad :: rest) w
  = Exited 1 (put ("could not parse " +:+ bad +:+ " as uint32" +:+ nl) w).
Proof.
  intros Hk Hgood Hbad.
  assert (Hrefused : (ParseUint bad 32).2 <> None).
  { destruct Hbad as [H | (p & Hp & Hs)]; [exact H |].
    apply (FormatUint_ParseUint_32 p bad ltac:(lia) Hs). lia. }
  rewrite (derive_literal E _ _ _ Hk). unfold bind.
  rewrite (derive_path_bad good bad rest Hgood Hrefused). reflexivity.
Qed.

Lemma derive_refuses_bad_segment_witness :
  derive sample ["xprv00"; "1"; "4294967296"; "x"] quiet
  = Exited 1 (put ("could not parse 4294967296 as uint32" +:+ nl) quiet) /\
  derive sample ["nokey"; "1"; "-2"] quiet
  = Exited 1 (put ("could not parse -2 as uint32" +:+ nl) quiet).
Proof.
  split.
  - apply (derive_refuses_bad_segment sample "xprv00" ["1"] "4294967296" ["x"] quiet).
    + discriminate.
    + repeat constructor.
    + right. exists 4294967296. split; [lia | reflexivity].
  - apply (derive_refuses_bad_segment sample "nokey" ["1"] "-2" [] quiet).
    + discriminate.
    + repeat constructor.
    + left. discriminate.
Defined.

(** X13: [derive] reads the decimal texts of [uint32] numbers as the path,
    in their order; it tries the extended private key before the
    extended public key and never a raw key: a key that is neither
    gives [could not parse key], hex or not. *)
Theorem derive_reads_decimal_path (E : Collaborators) k texts ps w :
  k <> "-" ->
  Forall2 (fun a p => 0 <= p < 2 ^ 32 /\ FormatUint p = Some a) texts ps ->
  derive E (k :: texts) w
  = match XPrvFromString E k with
    | Some xprv => Done tt (put (XPrv_String E (XPrv_Derive E xprv ps) +:+ nl) w)
    | None =>
        match XPubFromString E k with
        | Some xpub => Done tt (put (XPub_String E (XPub_Derive E xpub ps) +:+ nl) w)
        | None => Exited 1 (put ("could not parse key" +:+ nl) w)
        end
    end.
Proof.
  intros Hk Htexts.
  assert (Hparse : Forall2 (fun a p => ParseUint a 32 = (p, None)) texts ps).
  { eapply Forall2_impl; [exact Htexts |]. cbv beta. intros a p [Hp Ha].
    apply (FormatUint_ParseUint_32 p a); [| exact Ha | lia].
    change (2 ^ 32) with 4294967296 in Hp. change (2 ^ 64) with 18446744073709551616. lia. }
  rewrite (derive_literal E _ _ _ Hk). unfold bind.
  rewrite (derive_path_good texts ps Hparse). rewrite app_nil_l.
  destruct (XPrvFromString E k); [reflexivity |].
  destruct (XPubFromString E k); reflexivity.
Qed.

Lemma derive_reads_decimal_path_witness :
  derive sample ["xprv00"; "7"; "255"] quiet
  = Done tt (put ("xprv0007ff" +:+ nl) quiet) /\
  derive sample [sample_pub; "7"] quiet
  = Exited 1 (put ("could not parse key" +:+ nl) quiet).
Proof.
  split.
  - apply (derive_reads_decimal_path sample "xprv00" ["7"; "255"] [7; 255] quiet);
      [discriminate |].
    repeat constructor; lia.
  - apply (derive_reads_decimal_path sample sample_pub ["7"] [7] quiet); [discriminate |].
    repeat constructor; lia.
Defined.

(** ** Standard input across the inputs of a command *)

Section Threading.

Lemma input_dichotomy (args : list string) n :
  from_stdin args n \/ exists a, args !! n = Some a /\ a <> "-".
Proof.
  unfold from_stdin. destruct (args !! n) as [a |]; [| auto].
  destruct (String.eqb_spec a "-") as [-> | Hne]; [auto | right; eauto].
Qed.

Lemma ReadAll_loop_chunks chunks tail :
  forall acc,
    ReadAll_loop (map ReadData chunks ++ tail) acc
    = ReadAll_loop tail (acc +:+ foldr String.append "" chunks).
Proof.
  induction chunks as [| c chunks IH]; intros acc; cbn [map app foldr ReadAll_loop].
  - rewrite append_nil_r. reflexivity.
  - rewrite IH, append_assoc. reflexivity.
Qed.

End Threading.

(** X14: the commands with several inputs pass the stdin-used flag from
    one input to the next: when two of the inputs of [assetid],
    [hmac512], [sign] or [verify] are to come from standard input, the
    command reads it once, prints [can use stdin for only one arg] and
    exits with status 1, before it decodes anything. *)
Theorem second_stdin_input_is_refused (E : Collaborators) args w b rest :
  ReadAll_loop (stdin w) "" = (b, None, rest) ->
  let refused :=
    Exited 1 (put ("can use stdin for only one arg" +:+ nl)
                  (mkWorld rest (stdout w) (rand w))) in
  (from_stdin args 0 -> from_stdin args 1 ->
   assetid E args w = refused /\ hmac512 E args w = refused /\
   sign E args w = refused) /\
  (forall i j, (i < j <= 2)%nat -> from_stdin args i -> from_stdin args j ->
               verify E args w = refused).
Proof.
  intros Hread refused. set (w' := mkWorld rest (stdout w) (rand w)).
  assert (Hfirst : forall n, from_stdin args n ->
                             input args n false w = Done (b, true) w').
  { intros n Hn. apply input_stdin_once; assumption. }
  assert (Hnext : forall n, from_stdin args n ->
                            input args n true w'
                            = Exited 1 (put ("can use stdin for only one arg" +:+ nl) w')).
  { intros n Hn. apply input_stdin_twice. exact Hn. }
  split.
  - intros H0 H1. repeat split.
    + unfold assetid. unfold bind at 1. rewrite (Hfirst _ H0).
      unfold bind at 1. rewrite (Hnext _ H1). reflexivity.
    + unfold hmac512. unfold bind at 1. rewrite (Hfirst _ H0).
      unfold bind at 1. rewrite (Hnext _ H1). reflexivity.
    + unfold sign. unfold bind at 1. rewrite (Hfirst _ H0).
      unfold bind at 1. rewrite (Hnext _ H1). reflexivity.
  - intros i j Hij Hi Hj. unfold verify.
    destruct (input_dichotomy args 0) as [H0 | (a0 & Ha0 & Hn0)].
    + unfold bind at 1. rewrite (Hfirst _ H0).
      destruct (input_dichotomy args 1) as [H1 | (a1 & Ha1 & Hn1)].
      * unfold bind at 1. rewrite (Hnext _ H1). reflexivity.
      * unfold bind at 1. rewrite (input_literal _ _ true w' _ Ha1 Hn1).
        assert (H2 : from_stdin args 2).
        { destruct j as [| [| [| j]]]; try lia.
          - destruct Hj as [Hj | Hj]; congruence.
          - exact Hj. }
        unfold bind at 1. rewrite (Hnext _ H2). reflexivity.
    + assert (H1 : from_stdin args 1 /\ from_stdin args 2).
      { destruct i as [| [| i]]; try lia.
        - destruct Hi as [Hi | Hi]; congruence.
        - destruct j as [| [| [| j]]]; try lia. auto. }
      destruct H1 as [H1 H2].
      unfold bind at 1. rewrite (input_literal _ _ false w _ Ha0 Hn0).
      unfold bind at 1. rewrite (Hfirst _ H1).
      unfold bind at 1. rewrite (Hnext _ H2). reflexivity.
Qed.

Lemma second_stdin_input_is_refused_witness :
  sign sample ["-"] (piped "00") = Exited 1 (put ("can use stdin for only one arg" +:+ nl) quiet) /\
  verify sample ["k"; "-"; "-"] (piped "00")
  = Exited 1 (put ("can use stdin for only one arg" +:+ nl) quiet).
Proof.
  destruct (second_stdin_input_is_refused sample ["-"] (piped "00") "00" [] eq_refl)
    as [Htwo _].
  destruct (second_stdin_input_is_refused sample ["k"; "-"; "-"] (piped "00") "00" []
              eq_refl) as [_ Hverify].
  split.
  - apply Htwo; [right | left]; reflexivity.
  - apply (Hverify 1%nat 2%nat); [lia | right | right]; reflexivity.
Defined.

(** X15: an input that comes from standard input is everything read up
    to the end of the input, the reads joined in their order; when a
    read fails first (the deadline of the timed reader, for instance),
    what was read is dropped and the command prints [unexpected error:]
    with the error and exits with status 1. *)
Theorem input_reads_all_of_stdin args n w chunks later :
  from_stdin args n ->
  (stdin w = map ReadData chunks ++ ReadEOF :: later ->
   input args n false w
   = Done (foldr String.append "" chunks, true) (mkWorld later (stdout w) (rand w))) /\
  (forall e,
      stdin w = map ReadData chunks ++ ReadError e :: later ->
      input args n false w
      = Exited 1 (put ("unexpected error: " +:+ e +:+ nl)
                      (mkWorld later (stdout w) (rand w)))).
Proof.
  intros Hn. split.
  - intros Hstdin. apply input_stdin_once; [exact Hn |].
    rewrite Hstdin, ReadAll_loop_chunks. reflexivity.
  - intros e Hstdin. apply input_stdin_error with (b := foldr String.append "" chunks);
      [exact Hn |].
    rewrite Hstdin, ReadAll_loop_chunks. reflexivity.
Qed.

Lemma input_reads_all_of_stdin_witness :
  input [] 0 false (mkWorld [ReadData "ac"; ReadData "02"; ReadEOF] "" [])
  = Done ("ac02", true) quiet /\
  input ["-"] 0 false (mkWorld [ReadData "ac"; ReadError "context deadline exceeded"] "" [])
  = Exited 1 (put ("unexpected error: context deadline exceeded" +:+ nl) quiet).
Proof.
  split.
  - apply (input_reads_all_of_stdin [] 0%nat
             (mkWorld [ReadData "ac"; ReadData "02"; ReadEOF] "" []) ["ac"; "02"] []);
      [left |]; reflexivity.
  - apply (input_reads_all_of_stdin ["-"] 0%nat
             (mkWorld [ReadData "ac"; ReadError "context deadline exceeded"] "" [])
             ["ac"] []); [right |]; reflexivity.
Defined.

(** ** From [sign] to [verify] *)

(** X16: for a raw private key, the key printed by [pub] and the
    signature printed by [sign] are accepted by [verify], which prints
    [verified], provided the key and signature functions behind the
    tool agree: the public key goes through its byte form unchanged,
    the bytes of the key and of the signature are bytes, the hex of the
    public key is no extended public key, and a signature verifies
    under the public form of the key that made it. *)
Theorem sign_then_verify (E : Collaborators) k m raw prv msg w :
  k <> "-" -> m <> "-" ->
  XPrvFromString E k = None ->
  DecodeString k = inr raw -> PrvFromBytes E raw = Some prv ->
  DecodeString m = inr msg ->
  let pk := PrivateKey_Public E prv in
  let P := EncodeToString (PubBytes E pk) in
  let S := EncodeToString (ed25519_Sign E prv msg) in
  Forall (fun b => 0 <= b < 256) (PubBytes E pk) ->
  Forall (fun b => 0 <= b < 256) (ed25519_Sign E prv msg) ->
  PubFromBytes E (PubBytes E pk) = Some pk ->
  XPubFromString E P = None ->
  ed25519_Verify E pk msg (ed25519_Sign E prv msg) = true ->
  pub E [k] w = Done tt (put (P +:+ nl) w) /\
  sign E [k; m] w = Done tt (put (S +:+ nl) w) /\
  verify E [P; m; S] w = Done tt (put ("verified" +:+ nl) w).
Proof.
  intros Hk Hm Hx Hraw Hprv Hmsg pk P S HPbytes HSbytes Hback Hnox Hver.
  split; [| split].
  - rewrite (pub_raw E [k] w k false w (input_literal [k] 0 false w k eq_refl Hk) Hx).
    unfold bind. rewrite (mustDecodeHex_ok _ _ _ Hraw), Hprv. reflexivity.
  - unfold sign. unfold bind at 1.
    rewrite (input_literal [k; m] 0 false w k eq_refl Hk).
    unfold bind at 1. rewrite (input_literal [k; m] 1 false w m eq_refl Hm).
    rewrite Hx. unfold bind. rewrite (mustDecodeHex_ok _ _ _ Hraw), Hprv.
    rewrite bool_decide_false by discriminate. cbn [when ret].
    rewrite (mustDecodeHex_ok _ _ _ Hmsg). reflexivity.
  - assert (HP : P <> "-") by apply EncodeToString_never_dash.
    assert (HS : S <> "-") by apply EncodeToString_never_dash.
    rewrite (verify_inputs E [P; m; S] w P false w m false w S false w
               (input_literal [P; m; S] 0 false w P eq_refl HP)
               (input_literal [P; m; S] 1 false w m eq_refl Hm)
               (input_literal [P; m; S] 2 false w S eq_refl HS)).
    rewrite Hnox. unfold bind.
    rewrite (mustDecodeHex_ok _ _ _ (DecodeString_EncodeToString _ HPbytes)), Hback.
    rewrite bool_decide_false by discriminate. cbn [when ret].
    rewrite (mustDecodeHex_ok _ _ _ Hmsg).
    rewrite (mustDecodeHex_ok _ _ _ (DecodeString_EncodeToString _ HSbytes)).
    cbn [orPanic ret]. rewrite Hver. reflexivity.
Qed.

Lemma sign_then_verify_witness :
  pub sample [sample_pub +:+ sample_pub] quiet = Done tt (put (sample_pub +:+ nl) quiet) /\
  sign sample [sample_pub +:+ sample_pub; "6869"] quiet
  = Done tt (put (sample_pub +:+ "6869" +:+ nl) quiet) /\
  verify sample [sample_pub; "6869"; sample_pub +:+ "6869"] quiet
  = Done tt (put ("verified" +:+ nl) quiet).
Proof.
  apply (sign_then_verify sample (sample_pub +:+ sample_pub) "6869"
           (repeat 0 64%nat) (repeat 0 64%nat) [104; 105] quiet);
    try reflexivity; try discriminate; repeat constructor; lia.
Defined.

(** ** From [-from] back to [-to] *)

Section Back.

Lemma ParseInt_refuses_large p s :
  2 ^ 63 <= p < 2 ^ 64 -> FormatUint p = Some s ->
  exists v e, ParseInt s 64 = (v, Some e).
Proof.
  intros Hp Hs.
  destruct (FormatUint_ParseUint p ltac:(lia)) as (s' & Hs' & Hparse & d & r & -> & Hd).
  rewrite Hs in Hs'. injection Hs' as ->.
  destruct (digit_not_sign d Hd) as [Hplus Hminus].
  cbn [ParseInt]. rewrite Hplus, Hminus, Hparse. cbn [negb andb].
  change (2 ^ (64 - 1)) with (2 ^ 63).
  replace (2 ^ 63 <=? p) with true by (symmetry; apply Z.leb_le; lia).
  eauto.
Qed.

Lemma FormatUint_not_dash p s :
  0 <= p < 2 ^ 64 -> FormatUint p = Some s -> s <> "-".
Proof.
  intros Hp Hs ->.
  destruct (FormatUint_ParseUint p Hp) as (s' & Hs' & Hparse & _).
  rewrite Hs in Hs'. injection Hs' as <-. discriminate Hparse.
Qed.

End Back.

(** X7: [varint -to] accepts every number that [varint -from] prints:
    when the hex text starts with a complete encoding, the decimal line
    printed by [-from] is encoded by [-to] to a hex line that [-from]
    decodes to the same decimal line. *)
Theorem varint_accepts_what_it_prints bs :
  Forall (fun b => 0 <= b < 256) bs ->
  0 < (Uvarint bs).2 ->
  exists dec h,
    (forall rest w,
        dovarint ("-from" :: EncodeToString bs :: rest) true w
        = Done tt (put (dec +:+ nl) w)) /\
    (forall rest w,
        dovarint ("-to" :: dec :: rest) true w = Done tt (put (h +:+ nl) w)) /\
    (forall rest w,
        dovarint ("-from" :: h :: rest) true w = Done tt (put (dec +:+ nl) w)).
Proof.
  intros Hbs Hk. set (n := (Varint bs).1).
  destruct (FormatInt_ParseInt n (Varint_range bs)) as (dec & Hdec & Hparse & Hdash).
  destruct (dovarint_to_parsed dec true n Hparse) as (bs' & Hlen & Hbytes & Hread & Hto).
  exists dec, (EncodeToString bs'). split; [| split].
  - intros rest w. rewrite (dovarint_flag_from _ _ _ _ (EncodeToString_never_dash _)).
    destruct (dovarint_from_bytes _ bs true w (DecodeString_EncodeToString _ Hbs))
      as [_ Hgood].
    destruct (Hgood Hk) as (dec' & Hdec' & Hrun). fold n in Hdec'.
    rewrite Hdec in Hdec'. injection Hdec' as <-. exact Hrun.
  - intros rest w. rewrite (dovarint_flag_to _ _ _ _ Hdash). apply Hto.
  - intros rest w. rewrite (dovarint_flag_from _ _ _ _ (EncodeToString_never_dash _)).
    rewrite (dovarint_from_encoded _ _ _ _ Hlen Hbytes Hread).
    unfold varint_word. destruct (zigzag_range n (Varint_range bs)) as [-> _].
    rewrite (unzigzag n (Varint_range bs)). apply Println_int64_run. exact Hdec.
Qed.

Lemma varint_accepts_what_it_prints_witness :
  exists dec h,
    (forall rest w,
        dovarint ("-from" :: EncodeToString [215; 4; 9] :: rest) true w
        = Done tt (put (dec +:+ nl) w)) /\
    (forall rest w,
        dovarint ("-to" :: dec :: rest) true w = Done tt (put (h +:+ nl) w)) /\
    (forall rest w,
        dovarint ("-from" :: h :: rest) true w = Done tt (put (dec +:+ nl) w)).
Proof.
  apply (varint_accepts_what_it_prints [215; 4; 9]).
  - repeat constructor; lia.
  - reflexivity.
Defined.

(** X8: [uvarint -to] refuses the numbers from 2^63 up that
    [uvarint -from] prints: the decimal line that [-from] prints for
    such an encoding makes [-to] exit with [could not parse base 10
    int]. *)
Theorem uvarint_refuses_what_it_prints bs :
  Forall (fun b => 0 <= b < 256) bs ->
  0 < (Uvarint bs).2 ->
  2 ^ 63 <= (Uvarint bs).1 ->
  exists dec,
    (forall rest w,
        dovarint ("-from" :: EncodeToString bs :: rest) false w
        = Done tt (put (dec +:+ nl) w)) /\
    (forall rest w,
        dovarint ("-to" :: dec :: rest) false w
        = Exited 1 (put ("could not parse base 10 int" +:+ nl) w)).
Proof.
  intros Hbs Hk Hbig.
  pose proof (Uvarint_loop_range bs 0 0 0 ltac:(lia)) as Hrange.
  fold (Uvarint bs) in Hrange.
  destruct (FormatUint_total _ Hrange) as (dec & Hdec).
  destruct (ParseInt_refuses_large _ _ (conj Hbig (proj2 Hrange)) Hdec)
    as (v & e & Hparse).
  exists dec. split.
  - intros rest w. rewrite (dovarint_flag_from _ _ _ _ (EncodeToString_never_dash _)).
    destruct (dovarint_from_bytes _ bs false w (DecodeString_EncodeToString _ Hbs))
      as [_ Hgood].
    destruct (Hgood Hk) as (dec' & Hdec' & Hrun).
    rewrite Hdec in Hdec'. injection Hdec' as <-. exact Hrun.
  - intros rest w.
    assert (Hdash : dec <> "-") by (apply (FormatUint_not_dash _ _ Hrange Hdec)).
    rewrite (dovarint_flag_to _ _ _ _ Hdash).
    unfold dovarint_to. rewrite Hparse. reflexivity.
Qed.

Lemma uvarint_refuses_what_it_prints_witness :
  exists dec,
    (forall rest w,
        dovarint ("-from" :: "ffffffffffffffffff01" :: rest) false w
        = Done tt (put (dec +:+ nl) w)) /\
    (forall rest w,
        dovarint ("-to" :: dec :: rest) false w
        = Exited 1 (put ("could not parse base 10 int" +:+ nl) w)).
Proof.
  apply (uvarint_refuses_what_it_prints (repeat 255 9 ++ [1])).
  - repeat constructor; lia.
  - reflexivity.
  - vm_compute. discriminate.
Defined.

(** ** The prefix [0x] under the flag [-from] *)

Section Prefix.

Lemma prefixed_value_is_no_flag args w val used w' :
  input args 0 false w = Done (val, used) w' ->
  HasPrefix val "0x" = true -> no_flag args.
Proof.
  intros Hin Hpre a rest ->.
  assert (Hflag : forall flag, flag <> "-" -> a = flag -> HasPrefix flag "0x" = true).
  { intros flag Hdash ->.
    rewrite (input_literal (flag :: rest) 0 false w flag eq_refl Hdash) in Hin.
    injection Hin as -> _ _. exact Hpre. }
  split; intros Ha; apply Hflag in Ha; discriminate.
Qed.

End Prefix.

(** C10 (amended): under the explicit flag [-from] a value with the
    prefix [0x], given as an argument or read from standard input,
    keeps its prefix, fails to decode as hex and ends the process with
    status 1 and the hex error.  Without a flag the prefix is stripped
    and the rest decoded: the value is accepted, and its number
    printed, when the rest is the hex of bytes that start with a
    complete varint; when the rest is not hex, or holds no complete
    varint, the process ends with status 1 and the diagnostic. *)
Theorem from_flag_keeps_0x_prefix args signed w val used w' :
  input args 0 false w = Done (val, used) w' ->
  HasPrefix val "0x" = true ->
  (exists e,
      DecodeString val = inl e /\
      dovarint ("-from" :: args) signed w
      = Exited 1 (put ("error decoding hex: " +:+ Hex.Error e +:+ nl) w')) /\
  (forall e,
      DecodeString (TrimPrefix val "0x") = inl e ->
      dovarint args signed w
      = Exited 1 (put ("error decoding hex: " +:+ Hex.Error e +:+ nl) w')) /\
  (forall bs,
      DecodeString (TrimPrefix val "0x") = inr bs ->
      ((Uvarint bs).2 <= 0 ->
       dovarint args signed w
       = Exited 1 (put ("could not parse varint" +:+ nl) w')) /\
      (0 < (Uvarint bs).2 ->
       exists dec,
         (if signed then FormatInt (Varint bs).1 else FormatUint (Uvarint bs).1)
         = Some dec /\
         dovarint args signed w = Done tt (put (dec +:+ nl) w'))).
Proof.
  intros Hin Hpre.
  pose proof (prefixed_value_is_no_flag _ _ _ _ _ Hin Hpre) as Hnf.
  pose proof (dovarint_inferred _ signed _ _ _ _ Hnf Hin) as Hrun.
  rewrite Hpre in Hrun. split; [| split].
  - destruct (DecodeString_0x _ Hpre) as (e & He & _). exists e. split; [exact He |].
    rewrite dovarint_flag by (left; reflexivity). unfold bind. rewrite Hin.
    change (dovarint_switch "-from" val signed w') with (dovarint_from val signed w').
    apply dovarint_from_bad_hex. exact He.
  - intros e He. rewrite Hrun. apply dovarint_from_bad_hex. exact He.
  - intros bs Hbs. rewrite Hrun. apply dovarint_from_bytes. exact Hbs.
Qed.

Lemma from_flag_keeps_0x_prefix_witness :
  (exists e,
      DecodeString "0xac02" = inl e /\
      dovarint ["-from"; "0xac02"] false quiet
      = Exited 1 (put ("error decoding hex: " +:+ Hex.Error e +:+ nl) quiet)) /\
  (exists dec,
      FormatUint (Uvarint [172; 2]).1 = Some dec /\
      dovarint ["0xac02"] false quiet = Done tt (put (dec +:+ nl) quiet)) /\
  (exists e,
      DecodeString "0x8f01" = inl e /\
      dovarint ["-from"] true (piped "0x8f01")
      = Exited 1 (put ("error decoding hex: " +:+ Hex.Error e +:+ nl) quiet)).
Proof.
  destruct (from_flag_keeps_0x_prefix ["0xac02"] false quiet "0xac02" false quiet
              eq_refl eq_refl) as (Hflag & _ & Hbytes).
  destruct (from_flag_keeps_0x_prefix [] true (piped "0x8f01") "0x8f01" true quiet
              eq_refl eq_refl) as (Hpiped & _ & _).
  split; [exact Hflag | split; [| exact Hpiped]].
  destruct (Hbytes [172; 2] eq_refl) as [_ Hgood]. apply Hgood. reflexivity.
Defined.

(** C10, as stated, fails: [0xzz] has the prefix, and without a flag it
    is not accepted; the rest [zz] is not hex and the process ends with
    status 1. *)
Lemma flagless_0x_value_can_be_refused :
  HasPrefix "0xzz" "0x" = true /\
  dovarint ["0xzz"] false quiet
  = Exited 1 (put ("error decoding hex: encoding/hex: invalid byte: U+007A 'z'" +:+ nl)
                  quiet) /\
  forall text w', dovarint ["0xzz"] false quiet <> Done tt (put (text +:+ nl) w').
Proof.
  split; [reflexivity |]. split; [reflexivity |].
  intros text w' H. discriminate H.
Qed.
